(** * DarkRadiant: the declaration block syntax parser and the declaration
    type registry.

    Shallow embedding of libs/parser/DefBlockSyntaxParser.h (the tokeniser
    state machine, the syntax nodes and the syntax tree builder, over the
    [const std::string] cursor) and of the creator registry of
    radiantcore/decl/DeclarationManager, with the properties of the design
    document checked against them. *)

From Stdlib Require Import ZArith Ascii String Lia.
From stdpp Require Import base option list strings gmap.

Local Open Scope Z_scope.

(** ** Faults

    What a C++ run can end in besides a value: undefined behaviour (a cursor
    moved past its end marker, a null pointer dereferenced, a pointer cast to
    a class the object does not have), an exception ([std::out_of_range] of
    [vector::at], [std::logic_error] of the registry), a failed [assert], and
    the model's own fuel bound for the loops over the token stream. *)

Inductive Fault : Set :=
| CursorPastEnd
| NullDereference
| BadCast
| OutOfRange
| AssertionFailed (expr : string)
| AlreadyRegistered
| NotRegistered
| OutOfFuel.

Inductive Res (A : Type) : Type :=
| Ok (a : A)
| Fail (f : Fault).

Arguments Ok {A} a.
Arguments Fail {A} f.

#[global] Instance Res_ret : MRet Res := fun _ a => Ok a.
#[global] Instance Res_bind : MBind Res := fun _ _ k m =>
  match m with
  | Ok a => k a
  | Fail f => Fail f
  end.

(** ** Machine integers *)

(** [std::size_t], 64 bits wide, with the wrap-around of [++] and [--]. *)
Definition size_t_modulus : Z := 2 ^ 64.
Definition size_t_incr (n : Z) : Z := (n + 1) mod size_t_modulus.
Definition size_t_decr (n : Z) : Z := (n - 1) mod size_t_modulus.

(** [static_cast<int>(v.size())]: the low 32 bits, read as two's complement. *)
Definition static_cast_int (n : Z) : Z :=
  (n + 2 ^ 31) mod 2 ^ 32 - 2 ^ 31.

(** ** Characters *)

Definition OpeningBrace : ascii := "{"%char.
Definition ClosingBrace : ascii := "}"%char.
Definition Slash : ascii := "/"%char.
Definition Asterisk : ascii := "*"%char.
Definition DoubleQuote : ascii := "034"%char.
Definition Space : ascii := " "%char.
Definition Tab : ascii := "009"%char.
Definition LF : ascii := "010"%char.
Definition VT : ascii := "011"%char.
Definition CR : ascii := "013"%char.
Definition NUL : ascii := "000"%char.

(** [str += ch] *)
Definition push_back (s : string) (ch : ascii) : string :=
  s +:+ String ch EmptyString.

Definition empty (s : string) : bool :=
  match s with EmptyString => true | String _ _ => false end.

(** ** Tokens *)

Module DefSyntaxToken.

Inductive Kind : Set :=
| Nothing
| Whitespace
| BracedBlock
| Token
| EolComment
| BlockComment.

#[global] Instance Kind_eq_dec : EqDecision Kind.
Proof. solve_decision. Defined.

Record t : Set := mk { type : Kind; value : string }.

(** [tok.clear()] *)
Definition clear : t := {| type := Nothing; value := EmptyString |}.

(** [tok.type = k] *)
Definition set_type (tok : t) (k : Kind) : t :=
  {| type := k; value := value tok |}.

(** [tok.value += ch] *)
Definition append (tok : t) (ch : ascii) : t :=
  {| type := type tok; value := push_back (value tok) ch |}.

End DefSyntaxToken.

Abbreviation DefSyntaxToken := DefSyntaxToken.t.

(** ** The tokeniser function: its states and character classes *)

Module State.
Inductive t : Set :=
| Searching
| Whitespace
| Token
| BracedBlock
| QuotedStringWithinBlock
| BlockComment
| EolComment.
End State.

Definition Delims : list ascii := [Space; Tab; LF; VT; CR].

Definition IsWhitespace (c : ascii) : bool :=
  existsb (fun curDelim => Ascii.eqb curDelim c) Delims.

(** The cursor [next] is the text from the current character on, and the end
    marker [end] is the empty rest: [next != end] is "some character is
    left", [*next] is the first one and [++next] drops it. Moving a cursor
    that is at the end marker is undefined behaviour in C++ and the fault
    [CursorPastEnd] here. *)

(** [StringIteratorAdapter::peek]: the character after the current one, or
    ['\0'] when there is none. *)
Definition peek (next : string) : ascii :=
  match next with
  | String _ (String c _) => c
  | _ => NUL
  end.

(** ** Syntax nodes

    A [DefSyntaxNode::Ptr] is a [std::shared_ptr], possibly null: [None].
    [Node] is an object of the base class itself (the parser creates one, the
    root); the other constructors are the derived classes with their own
    members. The derived classes inherit [_children], which no code fills or
    reads ([getString] is overridden in each), so it is left out of them. *)

Module NodeType.
Inductive t : Set :=
| Root
| Whitespace
| Comment
| DeclType
| DeclName
| DeclBlock.
End NodeType.

#[warnings="-register-all"]
Inductive DefSyntaxNode : Type :=
| Node (_type : NodeType.t) (_children : list (option DefSyntaxNode))
| DefWhitespaceSyntax (_token : DefSyntaxToken)
| DefCommentSyntax (_token : DefSyntaxToken)
| DefTypeSyntax (_token : DefSyntaxToken)
| DefNameSyntax (_token : DefSyntaxToken)
| DefBlockSyntax (_blockToken : DefSyntaxToken)
    (_headerNodes : list (option DefSyntaxNode))
    (_type _name : option DefSyntaxNode).

Abbreviation Ptr := (option DefSyntaxNode).

Definition getType (n : DefSyntaxNode) : NodeType.t :=
  match n with
  | Node t _ => t
  | DefWhitespaceSyntax _ => NodeType.Whitespace
  | DefCommentSyntax _ => NodeType.Comment
  | DefTypeSyntax _ => NodeType.DeclType
  | DefNameSyntax _ => NodeType.DeclName
  | DefBlockSyntax _ _ _ _ => NodeType.DeclBlock
  end.


Definition appendChildNode (n : DefSyntaxNode) (node : Ptr) : DefSyntaxNode :=
  match n with
  | Node t children => Node t (children ++ [node])
  | _ => n
  end.

(** [p->member]: dereferencing a null pointer is undefined behaviour. *)
Definition arrow {A} (p : option A) : Res A :=
  match p with
  | Some a => Ok a
  | None => Fail NullDereference
  end.

(** The virtual [getString]. The base class walks its children and
    dereferences each one unchecked; [DefBlockSyntax] walks its header nodes,
    skips the null ones, and appends the text of the block token. *)
Definition each_child (getString : DefSyntaxNode -> Res string)
  : list Ptr -> string -> Res string :=
  fix each (children : list Ptr) (value : string) : Res string :=
    match children with
    | [] => Ok value
    | child :: children' =>
        match child with
        | Some c => s ← getString c; each children' (value +:+ s)
        | None => Fail NullDereference
        end
    end.

Definition each_headerNode (getString : DefSyntaxNode -> Res string)
  : list Ptr -> string -> Res string :=
  fix each (headerNodes : list Ptr) (output : string) : Res string :=
    match headerNodes with
    | [] => Ok output
    | headerNode :: headerNodes' =>
        match headerNode with
        | None => each headerNodes' output
        | Some h => s ← getString h; each headerNodes' (output +:+ s)
        end
    end.

Fixpoint getString (n : DefSyntaxNode) : Res string :=
  match n with
  | Node _ children => each_child getString children EmptyString
  | DefWhitespaceSyntax tok => Ok (DefSyntaxToken.value tok)
  | DefCommentSyntax tok => Ok (DefSyntaxToken.value tok)
  | DefTypeSyntax tok => Ok (DefSyntaxToken.value tok)
  | DefNameSyntax tok => Ok (DefSyntaxToken.value tok)
  | DefBlockSyntax blockToken headerNodes _ _ =>
      output ← each_headerNode getString headerNodes EmptyString;
      Ok (output +:+ DefSyntaxToken.value blockToken)
  end.

(** [DefTypeSyntax::getToken] and [DefNameSyntax::getToken], reached through
    a [static_pointer_cast]: on an object of another class the cast is
    undefined behaviour. *)
Definition DefNameSyntax_getToken (n : DefSyntaxNode) : Res DefSyntaxToken :=
  match n with
  | DefNameSyntax tok => Ok tok
  | _ => Fail BadCast
  end.

Definition DefTypeSyntax_getToken (n : DefSyntaxNode) : Res DefSyntaxToken :=
  match n with
  | DefTypeSyntax tok => Ok tok
  | _ => Fail BadCast
  end.

(** [DefBlockSyntax::getType] and [getName]: the stored pointers. *)
Definition DefBlockSyntax_getType (n : DefSyntaxNode) : Res Ptr :=
  match n with
  | DefBlockSyntax _ _ _type _ => Ok _type
  | _ => Fail BadCast
  end.

Definition DefBlockSyntax_getName (n : DefSyntaxNode) : Res Ptr :=
  match n with
  | DefBlockSyntax _ _ _ _name => Ok _name
  | _ => Fail BadCast
  end.

(** Modelled from the spec: [string::trim_copy] of libs/string/trim.h, which
    is not under src/. The design document reaches it only through the block
    contents ("raw opaque content between the braces"; the block
    [{\n  diffusemap textures/x\n}] has the content
    [\n  diffusemap textures/x\n]). The definition is the contract its call
    site names: a copy of the input without its leading and without its
    trailing characters that belong to the given set. *)
Definition is_any_of (chars : string) (c : ascii) : bool :=
  existsb (Ascii.eqb c) (list_ascii_of_string chars).

Fixpoint trim_left (chars : string) (s : string) : string :=
  match s with
  | EmptyString => EmptyString
  | String c s' => if is_any_of chars c then trim_left chars s' else s
  end.

Fixpoint trim_right (chars : string) (s : string) : string :=
  match s with
  | EmptyString => EmptyString
  | String c s' =>
      match trim_right chars s' with
      | EmptyString =>
          if is_any_of chars c then EmptyString else String c EmptyString
      | kept => String c kept
      end
  end.

Definition trim_copy (input : string) (charsToBeRemoved : string) : string :=
  trim_left charsToBeRemoved (trim_right charsToBeRemoved input).

(** [DefBlockSyntax::getBlockContents] *)
Definition getBlockContents (n : DefSyntaxNode) : Res string :=
  match n with
  | DefBlockSyntax blockToken _ _ _ =>
      Ok (trim_copy (DefSyntaxToken.value blockToken) "{}")
  | _ => Fail BadCast
  end.

(** [DefSyntaxTree]: the root pointer, set by the constructor to a fresh
    [Root] node. *)
Record DefSyntaxTree : Type := { _root : Ptr }.

Definition make_DefSyntaxTree : DefSyntaxTree :=
  {| _root := Some (Node NodeType.Root []) |}.

Definition getRoot (tree : DefSyntaxTree) : Ptr := _root tree.

Definition DefSyntaxTree_getString (tree : DefSyntaxTree) : Res string :=
  root ← arrow (_root tree); getString root.

(** [syntaxTree->getRoot()->appendChildNode(node)] *)
Definition appendToRoot (tree : DefSyntaxTree) (node : Ptr)
  : Res DefSyntaxTree :=
  root ← arrow (getRoot tree);
  Ok {| _root := Some (appendChildNode root node) |}.

(** [std::vector::at] with an [int] index: the index converts to the unsigned
    [size_type], where a negative [int] lands above every possible size, and
    an index that is not below the size throws [std::out_of_range]. *)
Definition vector_at {A} (v : list A) (index : Z) : Res A :=
  if index <? 0 then Fail OutOfRange
  else match v !! Z.to_nat index with
       | Some a => Ok a
       | None => Fail OutOfRange
       end.

(** ** The build configuration

    [assert] is a macro: it checks its condition in a build without [NDEBUG]
    and is empty in a build with it. The embedding takes the flag as a
    parameter, so every statement says which builds it is about. *)

Section Build.

Variable NDEBUG : bool.

Definition assert (expr : string) (cond : bool) : Res unit :=
  if NDEBUG || cond then Ok tt else Fail (AssertionFailed expr).

(** [DefBlockSyntaxTokeniserFunc::operator()], the [while (next != end)]
    loop with the switch over [_state]. A result [(found, next, tok)] is the
    returned [bool] with the cursor and the token as the call leaves them. *)
Fixpoint DefBlockSyntaxTokeniserFunc_loop
    (_state : State.t) (openedBlocks : Z) (tok : DefSyntaxToken)
    (next : string) {struct next} : Res (bool * string * DefSyntaxToken) :=
  match next with
  | EmptyString =>
      (* Return true if we have found a non-empty token *)
      Ok (negb (empty (DefSyntaxToken.value tok)), EmptyString, tok)
  | String ch rest =>
      match _state with
      | State.Searching =>
          if IsWhitespace ch then
            DefBlockSyntaxTokeniserFunc_loop State.Whitespace openedBlocks
              (DefSyntaxToken.append
                 (DefSyntaxToken.set_type tok DefSyntaxToken.Whitespace) ch)
              rest
          else if Ascii.eqb ch OpeningBrace then
            DefBlockSyntaxTokeniserFunc_loop State.BracedBlock 1
              (DefSyntaxToken.append
                 (DefSyntaxToken.set_type tok DefSyntaxToken.BracedBlock) ch)
              rest
          else if Ascii.eqb ch Slash then
            (* tok.value += ch; ++next; *)
            let tok := DefSyntaxToken.append tok ch in
            match rest with
            | String c rest' =>
                if Ascii.eqb c Asterisk then
                  DefBlockSyntaxTokeniserFunc_loop State.BlockComment
                    openedBlocks
                    (DefSyntaxToken.append
                       (DefSyntaxToken.set_type tok
                          DefSyntaxToken.BlockComment) Asterisk)
                    rest'
                else if Ascii.eqb c Slash then
                  DefBlockSyntaxTokeniserFunc_loop State.EolComment
                    openedBlocks
                    (DefSyntaxToken.append
                       (DefSyntaxToken.set_type tok
                          DefSyntaxToken.EolComment) Slash)
                    rest'
                else
                  (* neither: control leaves the [if (ch == '/')] block and
                     runs the statements after it on the moved cursor:
                     tok.value += ch; ++next; *)
                  DefBlockSyntaxTokeniserFunc_loop State.Token openedBlocks
                    (DefSyntaxToken.append
                       (DefSyntaxToken.set_type tok DefSyntaxToken.Token) ch)
                    rest'
            | EmptyString =>
                (* next == end after the first ++next; the statements after
                   the block do ++next again *)
                Fail CursorPastEnd
            end
          else
            DefBlockSyntaxTokeniserFunc_loop State.Token openedBlocks
              (DefSyntaxToken.append
                 (DefSyntaxToken.set_type tok DefSyntaxToken.Token) ch)
              rest
      | State.BracedBlock =>
          (* Add the character and advance in any case *)
          let tok := DefSyntaxToken.append tok ch in
          if Ascii.eqb ch OpeningBrace then
            DefBlockSyntaxTokeniserFunc_loop State.BracedBlock
              (size_t_incr openedBlocks) tok rest
          else if Ascii.eqb ch ClosingBrace then
            let openedBlocks := size_t_decr openedBlocks in
            if openedBlocks =? 0 then Ok (true, rest, tok)
            else
              DefBlockSyntaxTokeniserFunc_loop State.BracedBlock openedBlocks
                tok rest
          else if Ascii.eqb ch DoubleQuote then
            DefBlockSyntaxTokeniserFunc_loop State.QuotedStringWithinBlock
              openedBlocks tok rest
          else
            DefBlockSyntaxTokeniserFunc_loop State.BracedBlock openedBlocks
              tok rest
      | State.QuotedStringWithinBlock =>
          let tok := DefSyntaxToken.append tok ch in
          if Ascii.eqb ch DoubleQuote then
            DefBlockSyntaxTokeniserFunc_loop State.BracedBlock openedBlocks
              tok rest
          else
            DefBlockSyntaxTokeniserFunc_loop State.QuotedStringWithinBlock
              openedBlocks tok rest
      | State.Whitespace =>
          if IsWhitespace ch then
            DefBlockSyntaxTokeniserFunc_loop State.Whitespace openedBlocks
              (DefSyntaxToken.append tok ch) rest
          else
            (* Ran out of whitespace, return token *)
            Ok (true, next, tok)
      | State.BlockComment =>
          let tok := DefSyntaxToken.append tok ch in
          if Ascii.eqb ch Asterisk then
            match rest with
            | String c rest' =>
                if Ascii.eqb c Slash then
                  Ok (true, rest', DefSyntaxToken.append tok Slash)
                else
                  DefBlockSyntaxTokeniserFunc_loop State.BlockComment
                    openedBlocks tok rest
            | EmptyString =>
                DefBlockSyntaxTokeniserFunc_loop State.BlockComment
                  openedBlocks tok rest
            end
          else
            DefBlockSyntaxTokeniserFunc_loop State.BlockComment openedBlocks
              tok rest
      | State.EolComment =>
          if Ascii.eqb ch CR || Ascii.eqb ch LF then
            (* Stop here, leave next where it is *)
            Ok (true, next, tok)
          else
            DefBlockSyntaxTokeniserFunc_loop State.EolComment openedBlocks
              (DefSyntaxToken.append tok ch) rest
      | State.Token =>
          _ ← assert "!tok.value.empty()"
                (negb (empty (DefSyntaxToken.value tok)));
          if Ascii.eqb ch OpeningBrace || Ascii.eqb ch ClosingBrace then
            (* Finalise the token and leave next where it is *)
            Ok (true, next, tok)
          else if Ascii.eqb ch Slash then
            let nextChar := peek next in
            if Ascii.eqb nextChar Asterisk || Ascii.eqb nextChar Slash then
              (* This ends our token *)
              Ok (true, next, tok)
            else
              DefBlockSyntaxTokeniserFunc_loop State.Token openedBlocks
                (DefSyntaxToken.append tok ch) rest
          else if IsWhitespace ch then
            (* Whitespace terminates our token *)
            Ok (true, next, tok)
          else
            DefBlockSyntaxTokeniserFunc_loop State.Token openedBlocks
              (DefSyntaxToken.append tok ch) rest
      end
  end.

(** [operator()]: the state and the token are reset on entry, no brace is
    open. *)
Definition DefBlockSyntaxTokeniserFunc (next : string)
  : Res (bool * string * DefSyntaxToken) :=
  DefBlockSyntaxTokeniserFunc_loop State.Searching 0 DefSyntaxToken.clear next.

(** Modelled from the spec: [string::Tokeniser] and its [Iterator]
    (libs/string/tokeniser.h is not under src/). Section 4.1 gives the
    contract the parser relies on: "given a cursor over an immutable
    character sequence and an end marker, produce the next token and advance
    the cursor, or report exhaustion if no characters remain". The iterator
    holds the cursor and the token found last; creating it and [++] call the
    tokeniser function once; it is exhausted when that call found nothing. *)
Record Iterator : Set := {
  _cur : string;
  _token : DefSyntaxToken;
  _hasValidToken : bool
}.

Definition Iterator_advance (it : Iterator) : Res Iterator :=
  '(found, next, tok) ← DefBlockSyntaxTokeniserFunc (_cur it);
  Ok {| _cur := next; _token := tok; _hasValidToken := found |}.

Definition getIterator (str : string) : Res Iterator :=
  Iterator_advance
    {| _cur := str; _token := DefSyntaxToken.clear; _hasValidToken := false |}.

Definition isExhausted (it : Iterator) : bool := negb (_hasValidToken it).

(** ** Node constructors, with their assertions *)

Definition make_DefWhitespaceSyntax (token : DefSyntaxToken)
  : Res DefSyntaxNode :=
  _ ← assert "token.type == DefSyntaxToken::Type::Whitespace"
        (bool_decide (DefSyntaxToken.type token = DefSyntaxToken.Whitespace));
  Ok (DefWhitespaceSyntax token).

Definition make_DefCommentSyntax (token : DefSyntaxToken)
  : Res DefSyntaxNode :=
  _ ← assert "token.type == DefSyntaxToken::Type::BlockComment || token.type == DefSyntaxToken::Type::EolComment"
        (bool_decide (DefSyntaxToken.type token = DefSyntaxToken.BlockComment)
         || bool_decide (DefSyntaxToken.type token = DefSyntaxToken.EolComment));
  Ok (DefCommentSyntax token).

Definition make_DefTypeSyntax (token : DefSyntaxToken) : Res DefSyntaxNode :=
  _ ← assert "token.type == DefSyntaxToken::Type::Token"
        (bool_decide (DefSyntaxToken.type token = DefSyntaxToken.Token));
  Ok (DefTypeSyntax token).

Definition make_DefNameSyntax (token : DefSyntaxToken) : Res DefSyntaxNode :=
  _ ← assert "token.type == DefSyntaxToken::Type::Token"
        (bool_decide (DefSyntaxToken.type token = DefSyntaxToken.Token));
  Ok (DefNameSyntax token).

(** [DefBlockSyntax::DefBlockSyntax]; [nameIndex] and [typeIndex] default to
    [-1] at the call that leaves them out. *)
Definition make_DefBlockSyntax (blockToken : DefSyntaxToken)
    (headerNodes : list Ptr) (nameIndex typeIndex : Z) : Res DefSyntaxNode :=
  _ ← assert "_blockToken.type == DefSyntaxToken::Type::BracedBlock"
        (bool_decide
           (DefSyntaxToken.type blockToken = DefSyntaxToken.BracedBlock));
  _ ← assert "nameIndex >= 0" (0 <=? nameIndex);
  _name ← (if negb (nameIndex =? -1) then vector_at headerNodes nameIndex
           else Ok None);
  _type ← (if negb (typeIndex =? -1) then vector_at headerNodes typeIndex
           else Ok None);
  Ok (DefBlockSyntax blockToken headerNodes _type _name).

(** ** The parser

    The parser object holds the token iterator. [rWarning] is the global
    warning stream the parser writes to, kept next to it: one entry per line
    written. *)
Record DefBlockSyntaxParser : Set := {
  _tokIter : Iterator;
  rWarning : list string
}.

Definition make_DefBlockSyntaxParser (str : string)
  : Res DefBlockSyntaxParser :=
  it ← getIterator str; Ok {| _tokIter := it; rWarning := [] |}.

(** [++_tokIter] *)
Definition increment (this : DefBlockSyntaxParser) : Res DefBlockSyntaxParser :=
  it ← Iterator_advance (_tokIter this);
  Ok {| _tokIter := it; rWarning := rWarning this |}.

(** [rWarning() << message << std::endl] *)
Definition warn (this : DefBlockSyntaxParser) (message : string)
  : DefBlockSyntaxParser :=
  {| _tokIter := _tokIter this; rWarning := rWarning this ++ [message] |}.

(** A bound on the turns a loop over the token stream can take: every turn
    moves to the next token and every token holds a character. *)
Definition enough (it : Iterator) : nat := S (S (String.length (_cur it))).

Definition is_null (p : Ptr) : bool :=
  match p with None => true | Some _ => false end.

(** The [while (!block && !_tokIter.isExhausted())] loop of [parseBlock]. *)
Fixpoint parseBlock_loop (fuel : nat) (headerNodes : list Ptr) (block : Ptr)
    (nameIndex typeIndex : Z) (this : DefBlockSyntaxParser)
  : Res (Ptr * DefBlockSyntaxParser) :=
  match fuel with
  | O => Fail OutOfFuel
  | S fuel =>
      if is_null block && negb (isExhausted (_tokIter this)) then
        (* auto token = *_tokIter++; *)
        let token := _token (_tokIter this) in
        this ← increment this;
        match DefSyntaxToken.type token with
        | DefSyntaxToken.BlockComment | DefSyntaxToken.EolComment =>
            node ← make_DefCommentSyntax token;
            parseBlock_loop fuel (headerNodes ++ [Some node]) block
              nameIndex typeIndex this
        | DefSyntaxToken.Whitespace =>
            node ← make_DefWhitespaceSyntax token;
            parseBlock_loop fuel (headerNodes ++ [Some node]) block
              nameIndex typeIndex this
        | DefSyntaxToken.BracedBlock =>
            (* The braced block token concludes this decl block *)
            node ← make_DefBlockSyntax token headerNodes nameIndex typeIndex;
            parseBlock_loop fuel headerNodes (Some node) nameIndex typeIndex
              this
        | DefSyntaxToken.Token =>
            if nameIndex =? -1 then
              (* No name yet, assume this is the name *)
              let nameIndex :=
                static_cast_int (Z.of_nat (length headerNodes)) in
              node ← make_DefNameSyntax token;
              parseBlock_loop fuel (headerNodes ++ [Some node]) block
                nameIndex typeIndex this
            else if typeIndex =? -1 then
              (* The first one is the type, change the node type *)
              let typeIndex := nameIndex in
              oldName ← vector_at headerNodes typeIndex;
              oldName ← arrow oldName;
              oldToken ← DefNameSyntax_getToken oldName;
              typeNode ← make_DefTypeSyntax oldToken;
              let headerNodes :=
                <[Z.to_nat typeIndex := Some typeNode]> headerNodes in
              (* Append the name to the end of the vector *)
              let nameIndex :=
                static_cast_int (Z.of_nat (length headerNodes)) in
              node ← make_DefNameSyntax token;
              parseBlock_loop fuel (headerNodes ++ [Some node]) block
                nameIndex typeIndex this
            else
              parseBlock_loop fuel headerNodes block nameIndex typeIndex
                (warn this
                   "Invalid number of decl block headers, already got a name and type")
        | DefSyntaxToken.Nothing =>
            parseBlock_loop fuel headerNodes block nameIndex typeIndex this
        end
      else Ok (block, this)
  end.

Definition parseBlock (this : DefBlockSyntaxParser)
  : Res (Ptr * DefBlockSyntaxParser) :=
  parseBlock_loop (enough (_tokIter this)) [] None (-1) (-1) this.

(** The [while (!_tokIter.isExhausted())] loop of [parse]. *)
Fixpoint parse_loop (fuel : nat) (syntaxTree : DefSyntaxTree)
    (this : DefBlockSyntaxParser)
  : Res (DefSyntaxTree * DefBlockSyntaxParser) :=
  match fuel with
  | O => Fail OutOfFuel
  | S fuel =>
      if negb (isExhausted (_tokIter this)) then
        let token := _token (_tokIter this) in
        match DefSyntaxToken.type token with
        | DefSyntaxToken.BlockComment | DefSyntaxToken.EolComment =>
            node ← make_DefCommentSyntax token;
            syntaxTree ← appendToRoot syntaxTree (Some node);
            this ← increment this;
            parse_loop fuel syntaxTree this
        | DefSyntaxToken.Whitespace =>
            node ← make_DefWhitespaceSyntax token;
            syntaxTree ← appendToRoot syntaxTree (Some node);
            this ← increment this;
            parse_loop fuel syntaxTree this
        | DefSyntaxToken.BracedBlock =>
            let this :=
              warn this
                ("Unnamed block encountered: " +:+ DefSyntaxToken.value token)
            in
            node ← make_DefBlockSyntax token [] (-1) (-1);
            syntaxTree ← appendToRoot syntaxTree (Some node);
            this ← increment this;
            parse_loop fuel syntaxTree this
        | DefSyntaxToken.Token =>
            '(block, this) ← parseBlock this;
            syntaxTree ← appendToRoot syntaxTree block;
            parse_loop fuel syntaxTree this
        | DefSyntaxToken.Nothing =>
            parse_loop fuel syntaxTree this
        end
      else Ok (syntaxTree, this)
  end.

Definition parse (this : DefBlockSyntaxParser)
  : Res (DefSyntaxTree * DefBlockSyntaxParser) :=
  parse_loop (enough (_tokIter this)) make_DefSyntaxTree this.

(** [DefBlockSyntaxParser<const std::string>(str).parse()]: the tree and the
    warnings written on the way. *)
Definition parse_string (str : string) : Res (DefSyntaxTree * list string) :=
  this ← make_DefBlockSyntaxParser str;
  '(syntaxTree, this) ← parse this;
  Ok (syntaxTree, rWarning this).

(** [DefBlockSyntaxParser(str).parse()->getString()] *)
Definition parse_getString (str : string) : Res string :=
  '(syntaxTree, _) ← parse_string str;
  DefSyntaxTree_getString syntaxTree.

End Build.

(** ** The declaration type registry

    radiantcore/decl/DeclarationManager.h declares the two creator maps; the
    member functions are defined in DeclarationManager.cpp, which is not
    under src/. *)

Module decl.

(** [decl::Type], "an extensible identifier (not a fixed closed set)". *)
Definition Type_ : Set := N.
Definition Material : Type_ := 1%N.
Definition Model : Type_ := 5%N.

(** An [IDeclarationCreator::Ptr]: which object it points to, and the
    [getDeclType()] of that object. *)
Record Creator : Set := { instance : N; getDeclType : Type_ }.

#[global] Instance Creator_eq_dec : EqDecision Creator.
Proof. solve_decision. Defined.

Record DeclarationManager : Type := {
  _creatorsByTypename : gmap string Creator;
  _creatorsByType : gmap Type_ Creator
}.

Definition initial : DeclarationManager :=
  {| _creatorsByTypename := ∅; _creatorsByType := ∅ |}.

(** Modelled from the spec: [DeclarationManager::registerDeclType]
    (DeclarationManager.cpp is not under src/). Section 4.3: it "binds a
    textual keyword and the creator's Type. Fails with an 'already
    registered' condition if that keyword is already bound, even to a
    different creator instance"; section 7: usage faults are "raised as
    precondition violations; never auto-corrected". The result is the
    outcome of the call and the manager as the call leaves it. *)
Definition registerDeclType (typeName : string) (creator : Creator)
    (this : DeclarationManager) : Res unit * DeclarationManager :=
  match _creatorsByTypename this !! typeName with
  | Some _ => (Fail AlreadyRegistered, this)
  | None =>
      (Ok tt,
       {| _creatorsByTypename := <[typeName := creator]> (_creatorsByTypename this);
          _creatorsByType := <[getDeclType creator := creator]> (_creatorsByType this) |})
  end.

(** Modelled from the spec: [DeclarationManager::unregisterDeclType]
    (DeclarationManager.cpp is not under src/). Section 4.3: it "removes a
    binding; fails with a 'not registered' condition if absent". *)
Definition unregisterDeclType (typeName : string)
    (this : DeclarationManager) : Res unit * DeclarationManager :=
  match _creatorsByTypename this !! typeName with
  | None => (Fail NotRegistered, this)
  | Some creator =>
      (Ok tt,
       {| _creatorsByTypename := delete typeName (_creatorsByTypename this);
          _creatorsByType := delete (getDeclType creator) (_creatorsByType this) |})
  end.

End decl.

(** * Vocabulary of the properties *)

Fixpoint contains (c : ascii) (s : string) : bool :=
  match s with
  | EmptyString => false
  | String c' s' => Ascii.eqb c' c || contains c s'
  end.

(** [tok.value += s], character by character. *)
Definition append_all (tok : DefSyntaxToken) (s : string) : DefSyntaxToken :=
  {| DefSyntaxToken.type := DefSyntaxToken.type tok;
     DefSyntaxToken.value := DefSyntaxToken.value tok +:+ s |}.

Definition quoted_brace_input : string :=
  "{ key " +:+ String DoubleQuote "a } b" +:+ String DoubleQuote " more }".

Definition started (tok : DefSyntaxToken) : Prop :=
  empty (DefSyntaxToken.value tok) = false.

(** The shape of a call that found a token: the characters [consumed] went
    into the token, in order, and the cursor stands on what follows them. *)
Definition cuts NDEBUG (st : State.t) (openedBlocks : Z)
    (tok : DefSyntaxToken) (next : string) : Prop :=
  exists consumed next',
    DefBlockSyntaxTokeniserFunc_loop NDEBUG st openedBlocks tok next
    = Ok (true, next', append_all tok consumed)
    /\ next = consumed +:+ next'.

(** A token was found, and the token text followed by the text under the
    moved cursor is the text the call started on. *)
Definition lossless (next : string)
    (r : Res (bool * string * DefSyntaxToken)) : Prop :=
  exists tok next',
    r = Ok (true, next', tok)
    /\ next = DefSyntaxToken.value tok +:+ next'
    /\ started tok
    /\ DefSyntaxToken.type tok <> DefSyntaxToken.Nothing.

(** The call started on a slash that opens no comment: the token holds the
    slash twice and the character [c] after the slash is in neither the
    token nor the rest. *)
Definition slipped (next : string)
    (r : Res (bool * string * DefSyntaxToken)) : Prop :=
  exists c rest consumed next',
    next = String Slash (String c rest)
    /\ Ascii.eqb c Asterisk = false
    /\ Ascii.eqb c Slash = false
    /\ r = Ok (true, next',
               {| DefSyntaxToken.type := DefSyntaxToken.Token;
                  DefSyntaxToken.value :=
                    String Slash (String Slash consumed) |})
    /\ rest = consumed +:+ next'.


(** [reads it toks it']: the iterator [it] holds the first token of [toks],
    moving it on yields the others in order, and [it'] is the iterator
    after the last of them. *)
Inductive reads (NDEBUG : bool)
  : Iterator -> list DefSyntaxToken -> Iterator -> Prop :=
| reads_nil it : reads NDEBUG it [] it
| reads_cons it it1 toks it' :
    _hasValidToken it = true ->
    Iterator_advance NDEBUG it = Ok it1 ->
    reads NDEBUG it1 toks it' ->
    reads NDEBUG it (_token it :: toks) it'.

(** Whitespace and comments, and the node the parser makes of each. *)
Definition is_trivia (tok : DefSyntaxToken) : bool :=
  match DefSyntaxToken.type tok with
  | DefSyntaxToken.Whitespace
  | DefSyntaxToken.EolComment
  | DefSyntaxToken.BlockComment => true
  | _ => false
  end.

Definition trivia_node (tok : DefSyntaxToken) : Ptr :=
  match DefSyntaxToken.type tok with
  | DefSyntaxToken.Whitespace => Some (DefWhitespaceSyntax tok)
  | _ => Some (DefCommentSyntax tok)
  end.

Definition invalid_header_warning : string :=
  "Invalid number of decl block headers, already got a name and type".

Definition with_iterator (it : Iterator) (log : list string)
  : DefBlockSyntaxParser :=
  {| _tokIter := it; rWarning := log |}.

(** Iterators over sample texts, as [getIterator] makes them, and after
    their last token. *)
Definition token (k : DefSyntaxToken.Kind) (s : string) : DefSyntaxToken :=
  {| DefSyntaxToken.type := k; DefSyntaxToken.value := s |}.

Definition at_token (tok : DefSyntaxToken) (cur : string) : Iterator :=
  {| _cur := cur; _token := tok; _hasValidToken := true |}.

Definition exhausted_iterator : Iterator :=
  {| _cur := EmptyString; _token := DefSyntaxToken.clear;
     _hasValidToken := false |}.

(** What an iterator has left: the token at hand and the characters under
    the cursor. Every turn of the loops over the token stream lowers it. *)
Definition remaining (it : Iterator) : nat :=
  if _hasValidToken it then S (String.length (_cur it)) else O.

(** [parse], started on a tree that already has children. *)
Definition parse_from (NDEBUG : bool) (syntaxTree : DefSyntaxTree)
    (this : DefBlockSyntaxParser)
  : Res (DefSyntaxTree * DefBlockSyntaxParser) :=
  parse_loop NDEBUG (enough (_tokIter this)) syntaxTree this.

(** The token at hand, if there is one, is of a kind. *)
Definition well_formed (it : Iterator) : Prop :=
  _hasValidToken it = true ->
  DefSyntaxToken.type (_token it) <> DefSyntaxToken.Nothing.

(** A run that does not end for want of fuel. *)
Definition ends {A} (r : Res A) : Prop := r <> Fail OutOfFuel.

(** The bare token of the design document, section 4.1: "a maximal run of
    characters that are not whitespace, not [{]/[}], and do not begin a
    comment ([/] immediately followed by [*] or [/] ends the token without
    consuming the slash); a [/] not followed by [*] or [/] is ordinary token
    content". [maximal_run s] is that run at the start of [s], with the text
    after it. *)
Definition begins_comment (s : string) : bool :=
  match s with
  | String c (String c' _) =>
      Ascii.eqb c Slash && (Ascii.eqb c' Asterisk || Ascii.eqb c' Slash)
  | _ => false
  end.

Definition ends_bare_token (s : string) : bool :=
  match s with
  | EmptyString => true
  | String c _ =>
      IsWhitespace c || Ascii.eqb c OpeningBrace || Ascii.eqb c ClosingBrace
      || begins_comment s
  end.

Fixpoint maximal_run (s : string) : string * string :=
  match s with
  | EmptyString => (EmptyString, EmptyString)
  | String c rest =>
      if ends_bare_token s then (EmptyString, s)
      else let '(run, rest') := maximal_run rest in (String c run, rest')
  end.

(** A block comment that is not closed: no [*/] in what follows its [/*]. *)
Fixpoint has_comment_end (s : string) : bool :=
  match s with
  | EmptyString => false
  | String c rest =>
      match rest with
      | String c' _ =>
          (Ascii.eqb c Asterisk && Ascii.eqb c' Slash) || has_comment_end rest
      | EmptyString => false
      end
  end.

(** The creators of src/test/DeclManager.cpp: two objects of the class
    [TestDeclarationCreator], whose type is [Material]. *)
Definition creator : decl.Creator :=
  {| decl.instance := 1%N; decl.getDeclType := decl.Material |}.
Definition creator2 : decl.Creator :=
  {| decl.instance := 2%N; decl.getDeclType := decl.Material |}.

(** ** Vocabulary of the round trip *)

(** A token of kind [Token] whose text starts with a slash. The tokeniser
    function makes one only where it starts on a slash that opens no
    comment, and there the token is not the text it was cut from. *)
Definition leading_slash (s : string) : bool :=
  match s with
  | String c _ => Ascii.eqb c Slash
  | EmptyString => false
  end.

Definition slash_identifier (tok : DefSyntaxToken) : bool :=
  bool_decide (DefSyntaxToken.type tok = DefSyntaxToken.Token)
  && leading_slash (DefSyntaxToken.value tok).




(** The token of a node of one of the four token classes. *)
Definition leaf_token (n : DefSyntaxNode) : option DefSyntaxToken :=
  match n with
  | DefWhitespaceSyntax tok
  | DefCommentSyntax tok
  | DefTypeSyntax tok
  | DefNameSyntax tok => Some tok
  | _ => None
  end.

Definition leafy_ptr (p : Ptr) : bool :=
  match p with
  | Some n => match leaf_token n with Some _ => true | None => false end
  | None => true
  end.

(** Header nodes as [parseBlock] collects them. *)
Definition leafy (hs : list Ptr) : bool := forallb leafy_ptr hs.

Fixpoint tokens_of_header (hs : list Ptr) : list DefSyntaxToken :=
  match hs with
  | [] => []
  | Some n :: hs' =>
      match leaf_token n with
      | Some tok => tok :: tokens_of_header hs'
      | None => tokens_of_header hs'
      end
  | None :: hs' => tokens_of_header hs'
  end.

(** The texts of tokens, one after the other. *)
Fixpoint values (toks : list DefSyntaxToken) : string :=
  match toks with
  | [] => EmptyString
  | tok :: toks' => DefSyntaxToken.value tok +:+ values toks'
  end.




(** The name and type slots of [parseBlock] against its header nodes: no
    identifier yet; one, the name, at its slot; or both. *)
Definition header_state (hs : list Ptr) (nameIndex typeIndex : Z) : Prop :=
  (nameIndex = -1 /\ typeIndex = -1)
  \/ (typeIndex = -1 /\ 0 <= nameIndex
      /\ exists tok,
           hs !! Z.to_nat nameIndex = Some (Some (DefNameSyntax tok))
           /\ DefSyntaxToken.type tok = DefSyntaxToken.Token)
  \/ (nameIndex <> -1 /\ typeIndex <> -1).

Definition no_block (tok : DefSyntaxToken) : Prop :=
  DefSyntaxToken.type tok <> DefSyntaxToken.BracedBlock.

(** ** Vocabulary of the token shapes *)

(** The longest start of a text whose characters all satisfy [p], and what
    follows it. *)
Fixpoint span (p : ascii -> bool) (s : string) : string * string :=
  match s with
  | EmptyString => (EmptyString, EmptyString)
  | String c rest =>
      if p c then let '(run, rest') := span p rest in (String c run, rest')
      else (EmptyString, s)
  end.

Definition all_chars (p : ascii -> bool) (s : string) : bool :=
  forallb p (list_ascii_of_string s).

(** The text is at its end or goes on with a character that satisfies
    [p]. *)
Definition stops_at (p : ascii -> bool) (s : string) : bool :=
  match s with
  | EmptyString => true
  | String c _ => p c
  end.

Definition is_line_end (c : ascii) : bool := Ascii.eqb c CR || Ascii.eqb c LF.

(** A text that starts on a slash that opens no comment. *)
Definition begins_with_lone_slash (s : string) : bool :=
  match s with
  | String c rest =>
      Ascii.eqb c Slash
      && match rest with
         | String c' _ => negb (Ascii.eqb c' Asterisk || Ascii.eqb c' Slash)
         | EmptyString => true
         end
  | EmptyString => false
  end.

(** The inside of a braced block, by the depth of the blocks nested in it:
    characters that are no brace and no double quote, quoted strings, and
    nested blocks with their closing brace. *)
Inductive block_body : nat -> string -> Prop :=
| body_end (depth : nat) : block_body depth EmptyString
| body_char (depth : nat) (c : ascii) (s : string) :
    Ascii.eqb c OpeningBrace = false ->
    Ascii.eqb c ClosingBrace = false ->
    Ascii.eqb c DoubleQuote = false ->
    block_body depth s ->
    block_body depth (String c s)
| body_quoted (depth : nat) (quoted s : string) :
    contains DoubleQuote quoted = false ->
    block_body depth s ->
    block_body depth
      (String DoubleQuote (quoted +:+ String DoubleQuote s))
| body_nested (depth : nat) (inner s : string) :
    block_body depth inner ->
    block_body (S depth) s ->
    block_body (S depth)
      (String OpeningBrace (inner +:+ String ClosingBrace s)).

(** ** Vocabulary of the parser's invariants *)

(** The name and type slots of [parseBlock] and what stands at them in the
    header: no identifier yet; the name alone; or the type and, after it,
    the name. *)
Definition header_slots (hs : list Ptr) (nameIndex typeIndex : Z) : Prop :=
  (nameIndex = -1 /\ typeIndex = -1)
  \/ (typeIndex = -1 /\ 0 <= nameIndex
      /\ exists nameToken,
           hs !! Z.to_nat nameIndex = Some (Some (DefNameSyntax nameToken))
           /\ DefSyntaxToken.type nameToken = DefSyntaxToken.Token)
  \/ (0 <= typeIndex < nameIndex
      /\ exists typeToken nameToken,
           hs !! Z.to_nat typeIndex = Some (Some (DefTypeSyntax typeToken))
           /\ DefSyntaxToken.type typeToken = DefSyntaxToken.Token
           /\ hs !! Z.to_nat nameIndex = Some (Some (DefNameSyntax nameToken))
           /\ DefSyntaxToken.type nameToken = DefSyntaxToken.Token).

(** The faults a parse can end in: the cursor moved past the end by the
    tokeniser function and, in a build that checks assertions, the assertion
    on the name index. [OutOfFuel] is the model's own. *)
Definition tolerable (NDEBUG : bool) (f : Fault) : Prop :=
  f = CursorPastEnd
  \/ f = OutOfFuel
  \/ (NDEBUG = false /\ f = AssertionFailed "nameIndex >= 0").

(** A block with its name node, a name node in its header, and its type
    node, if it has one, a type node that stands before the name. *)
Definition named_block (b : DefSyntaxNode) : Prop :=
  exists blockToken hs type_ nameToken (i : nat),
    b = DefBlockSyntax blockToken hs type_ (Some (DefNameSyntax nameToken))
    /\ DefSyntaxToken.type blockToken = DefSyntaxToken.BracedBlock
    /\ DefSyntaxToken.type nameToken = DefSyntaxToken.Token
    /\ hs !! i = Some (Some (DefNameSyntax nameToken))
    /\ leafy hs = true
    /\ Forall (fun p => p <> None) hs
    /\ (type_ = None
        \/ exists typeToken (j : nat),
             type_ = Some (DefTypeSyntax typeToken)
             /\ DefSyntaxToken.type typeToken = DefSyntaxToken.Token
             /\ hs !! j = Some (Some (DefTypeSyntax typeToken))
             /\ (j < i)%nat).

(** The children [parse] gives the root: whitespace and comment nodes of
    tokens of their kind, blocks with a name, and blocks without header,
    name and type. *)
Definition root_child (n : DefSyntaxNode) : Prop :=
  (exists tok, n = DefWhitespaceSyntax tok
               /\ DefSyntaxToken.type tok = DefSyntaxToken.Whitespace)
  \/ (exists tok, n = DefCommentSyntax tok
                  /\ (DefSyntaxToken.type tok = DefSyntaxToken.EolComment
                      \/ DefSyntaxToken.type tok
                         = DefSyntaxToken.BlockComment))
  \/ named_block n
  \/ (exists tok, n = DefBlockSyntax tok [] None None
                  /\ DefSyntaxToken.type tok = DefSyntaxToken.BracedBlock).

Definition is_identifier (tok : DefSyntaxToken) : bool :=
  bool_decide (DefSyntaxToken.type tok = DefSyntaxToken.Token).

(** Tokens that may stand in a header: whitespace, comments, identifiers. *)
Definition is_header_token (tok : DefSyntaxToken) : bool :=
  is_trivia tok || is_identifier tok.

(** ** The tokeniser function over the stream cursor

    [operator()] is a template over the cursor type, and
    [SyntaxParserTraits] gives it two: the adapter over a [std::string]
    iterator, embedded above, and the adapter over a
    [std::istream_iterator<char>]. The two differ in [peek] alone: the
    stream adapter returns [static_cast<char>(stream.peek())], and the
    stream, which the iterator has read up to and with the current
    character, answers with the character after it, or with [EOF], which
    the cast turns into the character 255. *)
Definition EndOfFile : ascii := "255"%char.

Definition StreamIteratorAdapter_peek (next : string) : ascii :=
  match next with
  | String _ (String c _) => c
  | _ => EndOfFile
  end.

(** [operator()] with the [peek] of its cursor as a parameter. *)
Fixpoint DefBlockSyntaxTokeniserFunc_loop_on (NDEBUG : bool)
    (peek : string -> ascii)
    (_state : State.t) (openedBlocks : Z) (tok : DefSyntaxToken)
    (next : string) {struct next} : Res (bool * string * DefSyntaxToken) :=
  match next with
  | EmptyString =>
      Ok (negb (empty (DefSyntaxToken.value tok)), EmptyString, tok)
  | String ch rest =>
      match _state with
      | State.Searching =>
          if IsWhitespace ch then
            DefBlockSyntaxTokeniserFunc_loop_on NDEBUG peek State.Whitespace
              openedBlocks
              (DefSyntaxToken.append
                 (DefSyntaxToken.set_type tok DefSyntaxToken.Whitespace) ch)
              rest
          else if Ascii.eqb ch OpeningBrace then
            DefBlockSyntaxTokeniserFunc_loop_on NDEBUG peek State.BracedBlock
              1
              (DefSyntaxToken.append
                 (DefSyntaxToken.set_type tok DefSyntaxToken.BracedBlock) ch)
              rest
          else if Ascii.eqb ch Slash then
            let tok := DefSyntaxToken.append tok ch in
            match rest with
            | String c rest' =>
                if Ascii.eqb c Asterisk then
                  DefBlockSyntaxTokeniserFunc_loop_on NDEBUG peek
                    State.BlockComment openedBlocks
                    (DefSyntaxToken.append
                       (DefSyntaxToken.set_type tok
                          DefSyntaxToken.BlockComment) Asterisk)
                    rest'
                else if Ascii.eqb c Slash then
                  DefBlockSyntaxTokeniserFunc_loop_on NDEBUG peek
                    State.EolComment openedBlocks
                    (DefSyntaxToken.append
                       (DefSyntaxToken.set_type tok
                          DefSyntaxToken.EolComment) Slash)
                    rest'
                else
                  DefBlockSyntaxTokeniserFunc_loop_on NDEBUG peek State.Token
                    openedBlocks
                    (DefSyntaxToken.append
                       (DefSyntaxToken.set_type tok DefSyntaxToken.Token) ch)
                    rest'
            | EmptyString => Fail CursorPastEnd
            end
          else
            DefBlockSyntaxTokeniserFunc_loop_on NDEBUG peek State.Token
              openedBlocks
              (DefSyntaxToken.append
                 (DefSyntaxToken.set_type tok DefSyntaxToken.Token) ch)
              rest
      | State.BracedBlock =>
          let tok := DefSyntaxToken.append tok ch in
          if Ascii.eqb ch OpeningBrace then
            DefBlockSyntaxTokeniserFunc_loop_on NDEBUG peek State.BracedBlock
              (size_t_incr openedBlocks) tok rest
          else if Ascii.eqb ch ClosingBrace then
            let openedBlocks := size_t_decr openedBlocks in
            if openedBlocks =? 0 then Ok (true, rest, tok)
            else
              DefBlockSyntaxTokeniserFunc_loop_on NDEBUG peek
                State.BracedBlock openedBlocks tok rest
          else if Ascii.eqb ch DoubleQuote then
            DefBlockSyntaxTokeniserFunc_loop_on NDEBUG peek
              State.QuotedStringWithinBlock openedBlocks tok rest
          else
            DefBlockSyntaxTokeniserFunc_loop_on NDEBUG peek State.BracedBlock
              openedBlocks tok rest
      | State.QuotedStringWithinBlock =>
          let tok := DefSyntaxToken.append tok ch in
          if Ascii.eqb ch DoubleQuote then
            DefBlockSyntaxTokeniserFunc_loop_on NDEBUG peek State.BracedBlock
              openedBlocks tok rest
          else
            DefBlockSyntaxTokeniserFunc_loop_on NDEBUG peek
              State.QuotedStringWithinBlock openedBlocks tok rest
      | State.Whitespace =>
          if IsWhitespace ch then
            DefBlockSyntaxTokeniserFunc_loop_on NDEBUG peek State.Whitespace
              openedBlocks (DefSyntaxToken.append tok ch) rest
          else Ok (true, next, tok)
      | State.BlockComment =>
          let tok := DefSyntaxToken.append tok ch in
          if Ascii.eqb ch Asterisk then
            match rest with
            | String c rest' =>
                if Ascii.eqb c Slash then
                  Ok (true, rest', DefSyntaxToken.append tok Slash)
                else
                  DefBlockSyntaxTokeniserFunc_loop_on NDEBUG peek
                    State.BlockComment openedBlocks tok rest
            | EmptyString =>
                DefBlockSyntaxTokeniserFunc_loop_on NDEBUG peek
                  State.BlockComment openedBlocks tok rest
            end
          else
            DefBlockSyntaxTokeniserFunc_loop_on NDEBUG peek
              State.BlockComment openedBlocks tok rest
      | State.EolComment =>
          if Ascii.eqb ch CR || Ascii.eqb ch LF then Ok (true, next, tok)
          else
            DefBlockSyntaxTokeniserFunc_loop_on NDEBUG peek State.EolComment
              openedBlocks (DefSyntaxToken.append tok ch) rest
      | State.Token =>
          _ ← assert NDEBUG "!tok.value.empty()"
                (negb (empty (DefSyntaxToken.value tok)));
          if Ascii.eqb ch OpeningBrace || Ascii.eqb ch ClosingBrace then
            Ok (true, next, tok)
          else if Ascii.eqb ch Slash then
            let nextChar := peek next in
            if Ascii.eqb nextChar Asterisk || Ascii.eqb nextChar Slash then
              Ok (true, next, tok)
            else
              DefBlockSyntaxTokeniserFunc_loop_on NDEBUG peek State.Token
                openedBlocks (DefSyntaxToken.append tok ch) rest
          else if IsWhitespace ch then Ok (true, next, tok)
          else
            DefBlockSyntaxTokeniserFunc_loop_on NDEBUG peek State.Token
              openedBlocks (DefSyntaxToken.append tok ch) rest
      end
  end.

(** [operator()] on a stream. *)
Definition DefBlockSyntaxTokeniserFunc_stream (NDEBUG : bool) (next : string)
  : Res (bool * string * DefSyntaxToken) :=
  DefBlockSyntaxTokeniserFunc_loop_on NDEBUG StreamIteratorAdapter_peek
    State.Searching 0 DefSyntaxToken.clear next.

(** The last character of a text. *)
Fixpoint last_char (s : string) : option ascii :=
  match s with
  | EmptyString => None
  | String c EmptyString => Some c
  | String _ rest => last_char rest
  end.

Definition is_brace (c : ascii) : bool := is_any_of "{}" c.

(** A text that neither starts nor ends with a brace. *)
Definition plain_content (s : string) : bool :=
  stops_at (fun c => negb (is_brace c)) s
  && match last_char s with
     | Some c => negb (is_brace c)
     | None => true
     end.
(** * Properties *)

(** ** Strings *)

Lemma append_nil_l (s : string) : EmptyString +:+ s = s.
Proof. reflexivity. Qed.

Lemma append_cons (c : ascii) (s t : string) :
  String c s +:+ t = String c (s +:+ t).
Proof. reflexivity. Qed.

Lemma append_nil_r (s : string) : s +:+ EmptyString = s.
Proof.
  induction s as [|c s IH]; [reflexivity|].
  rewrite append_cons, IH. reflexivity.
Qed.

Lemma append_assoc (s t u : string) : (s +:+ t) +:+ u = s +:+ (t +:+ u).
Proof.
  induction s as [|c s IH]; [reflexivity|].
  rewrite !append_cons, IH. reflexivity.
Qed.

Lemma push_back_append (s t : string) (c : ascii) :
  push_back s c +:+ t = s +:+ String c t.
Proof. unfold push_back. rewrite append_assoc. reflexivity. Qed.

Lemma empty_push_back (s : string) (c : ascii) : empty (push_back s c) = false.
Proof. destruct s; reflexivity. Qed.

Lemma length_append (s t : string) :
  String.length (s +:+ t) = (String.length s + String.length t)%nat.
Proof.
  induction s as [|c s IH]; [reflexivity|].
  rewrite append_cons. simpl. rewrite IH. reflexivity.
Qed.

(** ** The quoted-string state of the tokeniser *)



Lemma append_all_nil (tok : DefSyntaxToken) : append_all tok EmptyString = tok.
Proof. destruct tok. unfold append_all. simpl. rewrite append_nil_r. reflexivity. Qed.

Lemma append_all_cons (tok : DefSyntaxToken) (c : ascii) (s : string) :
  append_all (DefSyntaxToken.append tok c) s = append_all tok (String c s).
Proof.
  unfold append_all, DefSyntaxToken.append. simpl.
  rewrite push_back_append. reflexivity.
Qed.

Lemma quoted_string_is_skipped NDEBUG (quoted : string) :
  forall (openedBlocks : Z) (tok : DefSyntaxToken) (rest : string),
    contains DoubleQuote quoted = false ->
    DefBlockSyntaxTokeniserFunc_loop NDEBUG State.QuotedStringWithinBlock
      openedBlocks tok (quoted +:+ String DoubleQuote rest)
    = DefBlockSyntaxTokeniserFunc_loop NDEBUG State.BracedBlock openedBlocks
        (append_all tok (quoted +:+ String DoubleQuote EmptyString)) rest.
Proof.
  induction quoted as [|c quoted IH]; intros openedBlocks tok rest Hq.
  - rewrite !append_nil_l. cbn [DefBlockSyntaxTokeniserFunc_loop].
    change (Ascii.eqb DoubleQuote DoubleQuote) with true. cbv iota.
    rewrite <- append_all_cons, append_all_nil. reflexivity.
  - simpl in Hq. apply orb_false_elim in Hq as [Hc Hq].
    rewrite !append_cons. cbn [DefBlockSyntaxTokeniserFunc_loop].
    rewrite Hc. rewrite IH by exact Hq.
    rewrite append_all_cons. reflexivity.
Qed.


Lemma unclosed_quoted_string NDEBUG (quoted : string) :
  forall (openedBlocks : Z) (tok : DefSyntaxToken),
    contains DoubleQuote quoted = false ->
    empty (DefSyntaxToken.value tok) = false ->
    DefBlockSyntaxTokeniserFunc_loop NDEBUG State.QuotedStringWithinBlock
      openedBlocks tok quoted
    = Ok (true, EmptyString, append_all tok quoted).
Proof.
  induction quoted as [|c quoted IH]; intros openedBlocks tok Hq Htok.
  - simpl. rewrite Htok, append_all_nil. reflexivity.
  - simpl in Hq. apply orb_false_elim in Hq as [Hc Hq].
    cbn [DefBlockSyntaxTokeniserFunc_loop]. rewrite Hc.
    rewrite IH; [|exact Hq|apply empty_push_back].
    rewrite append_all_cons. reflexivity.
Qed.

(** C6: the input [{ key "a } b" more }] tokenises as one BracedBlock token
    that spans the whole input; in general, a double quote met inside a
    braced block opens a quoted string, and whatever stands before its
    closing quote, braces included, is added to the token while the count of
    open braces stays as it was: the scan carries on in the block state with
    the same count after the closing quote, and where no closing quote
    comes, all that is left goes into the token. *)
Theorem quoted_brace_immunity (NDEBUG : bool) :
  DefBlockSyntaxTokeniserFunc NDEBUG quoted_brace_input
  = Ok (true, EmptyString,
        {| DefSyntaxToken.type := DefSyntaxToken.BracedBlock;
           DefSyntaxToken.value := quoted_brace_input |})
  /\ (forall (openedBlocks : Z) (tok : DefSyntaxToken) (quoted rest : string),
         contains DoubleQuote quoted = false ->
         DefBlockSyntaxTokeniserFunc_loop NDEBUG State.BracedBlock
           openedBlocks tok
           (String DoubleQuote (quoted +:+ String DoubleQuote rest))
         = DefBlockSyntaxTokeniserFunc_loop NDEBUG State.BracedBlock
             openedBlocks
             (append_all tok
                (String DoubleQuote
                   (quoted +:+ String DoubleQuote EmptyString)))
             rest)
  /\ (forall (openedBlocks : Z) (tok : DefSyntaxToken) (quoted : string),
         contains DoubleQuote quoted = false ->
         DefBlockSyntaxTokeniserFunc_loop NDEBUG State.BracedBlock
           openedBlocks tok (String DoubleQuote quoted)
         = Ok (true, EmptyString,
               append_all tok (String DoubleQuote quoted))).
Proof.
  split; [destruct NDEBUG; reflexivity|]. split.
  - intros openedBlocks tok quoted rest Hq.
    cbn [DefBlockSyntaxTokeniserFunc_loop].
    change (Ascii.eqb DoubleQuote OpeningBrace) with false.
    change (Ascii.eqb DoubleQuote ClosingBrace) with false.
    change (Ascii.eqb DoubleQuote DoubleQuote) with true.
    cbv iota.
    rewrite quoted_string_is_skipped by exact Hq.
    rewrite append_all_cons. reflexivity.
  - intros openedBlocks tok quoted Hq.
    cbn [DefBlockSyntaxTokeniserFunc_loop].
    change (Ascii.eqb DoubleQuote OpeningBrace) with false.
    change (Ascii.eqb DoubleQuote ClosingBrace) with false.
    change (Ascii.eqb DoubleQuote DoubleQuote) with true.
    cbv iota.
    rewrite unclosed_quoted_string; [|exact Hq|apply empty_push_back].
    rewrite append_all_cons. reflexivity.
Qed.

Lemma quoted_brace_immunity_witness :
  DefBlockSyntaxTokeniserFunc_loop false State.BracedBlock 1
    (DefSyntaxToken.mk DefSyntaxToken.BracedBlock "{")
    (String DoubleQuote ("a } b" +:+ String DoubleQuote " more }"))
  = DefBlockSyntaxTokeniserFunc_loop false State.BracedBlock 1
      (append_all (DefSyntaxToken.mk DefSyntaxToken.BracedBlock "{")
         (String DoubleQuote ("a } b" +:+ String DoubleQuote EmptyString)))
      " more }"
  /\ DefBlockSyntaxTokeniserFunc_loop false State.BracedBlock 1
       (DefSyntaxToken.mk DefSyntaxToken.BracedBlock "{")
       (String DoubleQuote "a } b")
     = Ok (true, EmptyString,
           append_all (DefSyntaxToken.mk DefSyntaxToken.BracedBlock "{")
             (String DoubleQuote "a } b")).
Proof.
  split.
  - apply (proj1 (proj2 (quoted_brace_immunity false))). reflexivity.
  - apply (proj2 (proj2 (quoted_brace_immunity false))). reflexivity.
Defined.

(** ** The tokeniser function cuts the text without loss, once it has left
    the searching state *)

Lemma append_all_append (tok : DefSyntaxToken) (s t : string) :
  append_all (append_all tok s) t = append_all tok (s +:+ t).
Proof. unfold append_all. simpl. rewrite append_assoc. reflexivity. Qed.

Lemma assert_holds NDEBUG (expr : string) : assert NDEBUG expr true = Ok tt.
Proof. unfold assert. rewrite orb_true_r. reflexivity. Qed.


Lemma started_append (tok : DefSyntaxToken) (ch : ascii) :
  started (DefSyntaxToken.append tok ch).
Proof. apply empty_push_back. Qed.

Lemma started_set_type (tok : DefSyntaxToken) (k : DefSyntaxToken.Kind) :
  started tok -> started (DefSyntaxToken.set_type tok k).
Proof. intros H. exact H. Qed.


Lemma cuts_here NDEBUG st openedBlocks tok next :
  DefBlockSyntaxTokeniserFunc_loop NDEBUG st openedBlocks tok next
  = Ok (true, next, tok) ->
  cuts NDEBUG st openedBlocks tok next.
Proof.
  intros H. exists EmptyString, next. rewrite append_all_nil. split; [exact H|].
  reflexivity.
Qed.

Lemma cuts_step NDEBUG st st' openedBlocks openedBlocks' tok ch rest :
  DefBlockSyntaxTokeniserFunc_loop NDEBUG st openedBlocks tok (String ch rest)
  = DefBlockSyntaxTokeniserFunc_loop NDEBUG st' openedBlocks'
      (DefSyntaxToken.append tok ch) rest ->
  cuts NDEBUG st' openedBlocks' (DefSyntaxToken.append tok ch) rest ->
  cuts NDEBUG st openedBlocks tok (String ch rest).
Proof.
  intros Heq (consumed & next' & Hrun & Hsplit).
  exists (String ch consumed), next'. split.
  - rewrite Heq, Hrun, append_all_cons. reflexivity.
  - rewrite append_cons, Hsplit. reflexivity.
Qed.

Lemma loop_cuts NDEBUG (next : string) :
  forall (st : State.t) (openedBlocks : Z) (tok : DefSyntaxToken),
    st <> State.Searching -> started tok ->
    cuts NDEBUG st openedBlocks tok next.
Proof.
  induction next as [|ch rest IH]; intros st openedBlocks tok Hst Htok.
  - apply cuts_here. simpl. unfold started in Htok. rewrite Htok. reflexivity.
  - assert (Hrec : forall st' openedBlocks',
               st' <> State.Searching ->
               DefBlockSyntaxTokeniserFunc_loop NDEBUG st openedBlocks tok
                 (String ch rest)
               = DefBlockSyntaxTokeniserFunc_loop NDEBUG st' openedBlocks'
                   (DefSyntaxToken.append tok ch) rest ->
               cuts NDEBUG st openedBlocks tok (String ch rest)).
    { intros st' openedBlocks' Hst' Heq.
      eapply cuts_step; [exact Heq|].
      apply IH; [exact Hst'|apply started_append]. }
    destruct st; [congruence|..]; cbn [DefBlockSyntaxTokeniserFunc_loop].
    + (* Whitespace *)
      destruct (IsWhitespace ch) eqn:Hws.
      * eapply Hrec with (st' := State.Whitespace); [discriminate|].
        cbn [DefBlockSyntaxTokeniserFunc_loop]. rewrite Hws. reflexivity.
      * apply cuts_here. cbn [DefBlockSyntaxTokeniserFunc_loop].
        rewrite Hws. reflexivity.
    + (* Token *)
      assert (Hassert :
                assert NDEBUG "!tok.value.empty()"
                  (negb (empty (DefSyntaxToken.value tok))) = Ok tt).
      { unfold started in Htok. rewrite Htok. apply assert_holds. }
      destruct (Ascii.eqb ch OpeningBrace || Ascii.eqb ch ClosingBrace)
        eqn:Hbrace.
      { apply cuts_here. cbn [DefBlockSyntaxTokeniserFunc_loop].
        rewrite Hassert, Hbrace. reflexivity. }
      destruct (Ascii.eqb ch Slash) eqn:Hslash.
      { destruct (Ascii.eqb (peek (String ch rest)) Asterisk
                  || Ascii.eqb (peek (String ch rest)) Slash) eqn:Hpeek.
        - apply cuts_here. cbn [DefBlockSyntaxTokeniserFunc_loop].
          rewrite Hassert, Hbrace, Hslash. cbn [mbind Res_bind].
          rewrite Hpeek. reflexivity.
        - eapply Hrec with (st' := State.Token); [discriminate|].
          cbn [DefBlockSyntaxTokeniserFunc_loop].
          rewrite Hassert, Hbrace, Hslash. cbn [mbind Res_bind].
          rewrite Hpeek. reflexivity. }
      destruct (IsWhitespace ch) eqn:Hws.
      * apply cuts_here. cbn [DefBlockSyntaxTokeniserFunc_loop].
        rewrite Hassert, Hbrace, Hslash, Hws. reflexivity.
      * eapply Hrec with (st' := State.Token); [discriminate|].
        cbn [DefBlockSyntaxTokeniserFunc_loop].
        rewrite Hassert, Hbrace, Hslash, Hws. reflexivity.
    + (* BracedBlock *)
      destruct (Ascii.eqb ch OpeningBrace) eqn:Hopen.
      { eapply Hrec with (st' := State.BracedBlock); [discriminate|].
        cbn [DefBlockSyntaxTokeniserFunc_loop]. rewrite Hopen. reflexivity. }
      destruct (Ascii.eqb ch ClosingBrace) eqn:Hclose.
      { destruct (size_t_decr openedBlocks =? 0) eqn:Hzero.
        - exists (String ch EmptyString), rest. split; [|reflexivity].
          rewrite <- append_all_cons, append_all_nil.
          cbn [DefBlockSyntaxTokeniserFunc_loop].
          rewrite Hopen, Hclose, Hzero. reflexivity.
        - eapply Hrec with (st' := State.BracedBlock); [discriminate|].
          cbn [DefBlockSyntaxTokeniserFunc_loop].
          rewrite Hopen, Hclose, Hzero. reflexivity. }
      destruct (Ascii.eqb ch DoubleQuote) eqn:Hquote.
      * eapply Hrec with (st' := State.QuotedStringWithinBlock);
          [discriminate|].
        cbn [DefBlockSyntaxTokeniserFunc_loop].
        rewrite Hopen, Hclose, Hquote. reflexivity.
      * eapply Hrec with (st' := State.BracedBlock); [discriminate|].
        cbn [DefBlockSyntaxTokeniserFunc_loop].
        rewrite Hopen, Hclose, Hquote. reflexivity.
    + (* QuotedStringWithinBlock *)
      destruct (Ascii.eqb ch DoubleQuote) eqn:Hquote.
      * eapply Hrec with (st' := State.BracedBlock); [discriminate|].
        cbn [DefBlockSyntaxTokeniserFunc_loop]. rewrite Hquote. reflexivity.
      * eapply Hrec with (st' := State.QuotedStringWithinBlock);
          [discriminate|].
        cbn [DefBlockSyntaxTokeniserFunc_loop]. rewrite Hquote. reflexivity.
    + (* BlockComment *)
      destruct (Ascii.eqb ch Asterisk) eqn:Hstar.
      * destruct rest as [|c rest'].
        -- apply (Hrec State.BlockComment openedBlocks); [discriminate|].
           cbn [DefBlockSyntaxTokeniserFunc_loop]. rewrite Hstar. reflexivity.
        -- destruct (Ascii.eqb c Slash) eqn:Hc.
           ++ apply Ascii.eqb_eq in Hc. subst c.
              exists (String ch (String Slash EmptyString)), rest'.
              split; [|reflexivity].
              rewrite <- !append_all_cons, append_all_nil.
              cbn [DefBlockSyntaxTokeniserFunc_loop]. rewrite Hstar.
              reflexivity.
           ++ eapply Hrec with (st' := State.BlockComment); [discriminate|].
              cbn [DefBlockSyntaxTokeniserFunc_loop]. rewrite Hstar, Hc.
              reflexivity.
      * eapply Hrec with (st' := State.BlockComment); [discriminate|].
        cbn [DefBlockSyntaxTokeniserFunc_loop]. rewrite Hstar. reflexivity.
    + (* EolComment *)
      destruct (Ascii.eqb ch CR || Ascii.eqb ch LF) eqn:Heol.
      * apply cuts_here. cbn [DefBlockSyntaxTokeniserFunc_loop].
        rewrite Heol. reflexivity.
      * eapply Hrec with (st' := State.EolComment); [discriminate|].
        cbn [DefBlockSyntaxTokeniserFunc_loop]. rewrite Heol. reflexivity.
Qed.

(** ** What a call of the tokeniser function can end in *)



Lemma first_step_lossless NDEBUG st openedBlocks k ch rest :
  st <> State.Searching -> k <> DefSyntaxToken.Nothing ->
  lossless (String ch rest)
    (DefBlockSyntaxTokeniserFunc_loop NDEBUG st openedBlocks
       (DefSyntaxToken.append
          (DefSyntaxToken.set_type DefSyntaxToken.clear k) ch) rest).
Proof.
  intros Hst Hk.
  destruct (loop_cuts NDEBUG rest st openedBlocks
              (DefSyntaxToken.append
                 (DefSyntaxToken.set_type DefSyntaxToken.clear k) ch)
              Hst (started_append _ _)) as (consumed & next' & Hrun & Hsplit).
  eexists _, next'. split; [exact Hrun|]. split; [|split].
  - rewrite Hsplit. reflexivity.
  - reflexivity.
  - exact Hk.
Qed.

Lemma tokeniser_cases NDEBUG (next : string) :
  (next = EmptyString
   /\ DefBlockSyntaxTokeniserFunc NDEBUG next
      = Ok (false, EmptyString, DefSyntaxToken.clear))
  \/ (next = String Slash EmptyString
      /\ DefBlockSyntaxTokeniserFunc NDEBUG next = Fail CursorPastEnd)
  \/ slipped next (DefBlockSyntaxTokeniserFunc NDEBUG next)
  \/ lossless next (DefBlockSyntaxTokeniserFunc NDEBUG next).
Proof.
  destruct next as [|ch rest]; [left; split; reflexivity|].
  right. unfold DefBlockSyntaxTokeniserFunc.
  cbn [DefBlockSyntaxTokeniserFunc_loop].
  destruct (IsWhitespace ch) eqn:Hws.
  { right. right. apply first_step_lossless; discriminate. }
  destruct (Ascii.eqb ch OpeningBrace) eqn:Hopen.
  { right. right. apply first_step_lossless; discriminate. }
  destruct (Ascii.eqb ch Slash) eqn:Hslash.
  2:{ right. right. apply first_step_lossless; discriminate. }
  apply Ascii.eqb_eq in Hslash. subst ch.
  destruct rest as [|c rest]; [left; split; reflexivity|].
  right.
  destruct (Ascii.eqb c Asterisk) eqn:Hstar.
  { right. apply Ascii.eqb_eq in Hstar. subst c.
    destruct (loop_cuts NDEBUG rest State.BlockComment 0
                (DefSyntaxToken.append
                   (DefSyntaxToken.set_type
                      (DefSyntaxToken.append DefSyntaxToken.clear Slash)
                      DefSyntaxToken.BlockComment) Asterisk))
      as (consumed & next' & Hrun & Hsplit);
      [discriminate|apply started_append|].
    eexists _, next'. split; [exact Hrun|]. split; [|split].
    - rewrite Hsplit. reflexivity.
    - reflexivity.
    - discriminate. }
  destruct (Ascii.eqb c Slash) eqn:Hslash.
  { right. apply Ascii.eqb_eq in Hslash. subst c.
    destruct (loop_cuts NDEBUG rest State.EolComment 0
                (DefSyntaxToken.append
                   (DefSyntaxToken.set_type
                      (DefSyntaxToken.append DefSyntaxToken.clear Slash)
                      DefSyntaxToken.EolComment) Slash))
      as (consumed & next' & Hrun & Hsplit);
      [discriminate|apply started_append|].
    eexists _, next'. split; [exact Hrun|]. split; [|split].
    - rewrite Hsplit. reflexivity.
    - reflexivity.
    - discriminate. }
  left.
  destruct (loop_cuts NDEBUG rest State.Token 0
              (DefSyntaxToken.append
                 (DefSyntaxToken.set_type
                    (DefSyntaxToken.append DefSyntaxToken.clear Slash)
                    DefSyntaxToken.Token) Slash))
    as (consumed & next' & Hrun & Hsplit);
    [discriminate|apply started_append|].
  exists c, rest, consumed, next'.
  repeat split; [exact Hstar|exact Hslash|exact Hrun|exact Hsplit].
Qed.

(** A found token holds a character, is of a kind, and leaves the cursor
    further on than the call found it. *)
Lemma tokeniser_progress NDEBUG next next' tok :
  DefBlockSyntaxTokeniserFunc NDEBUG next = Ok (true, next', tok) ->
  (String.length next' < String.length next)%nat
  /\ started tok
  /\ DefSyntaxToken.type tok <> DefSyntaxToken.Nothing.
Proof.
  intros Hrun.
  destruct (tokeniser_cases NDEBUG next)
    as [[_ H]|[[_ H]|[H|H]]]; rewrite Hrun in H; try discriminate.
  - destruct H as (c & rest & consumed & nx & Hnext & _ & _ & Heq & Hrest).
    injection Heq as -> ->. subst next rest. simpl.
    rewrite length_append. split; [lia|]. split; [reflexivity|discriminate].
  - destruct H as (tok' & nx & Heq & Hnext & Hstarted & Htype).
    injection Heq as -> ->. split; [|split; assumption].
    subst next. rewrite length_append.
    unfold started in Hstarted.
    destruct (DefSyntaxToken.value tok'); [discriminate|]. simpl. lia.
Qed.

(** Exhaustion is reported at the end marker only. *)
Lemma tokeniser_exhausted NDEBUG next next' tok :
  DefBlockSyntaxTokeniserFunc NDEBUG next = Ok (false, next', tok) ->
  next = EmptyString.
Proof.
  intros Hrun.
  destruct (tokeniser_cases NDEBUG next)
    as [[Hnext _]|[[_ H]|[H|H]]]; [exact Hnext|rewrite Hrun in H..].
  - discriminate.
  - destruct H as (? & ? & ? & ? & _ & _ & _ & Heq & _). discriminate.
  - destruct H as (? & ? & Heq & _). discriminate.
Qed.

(** ** One turn of the loop of [parseBlock] *)

Lemma static_cast_int_small (n : Z) :
  0 <= n < 2 ^ 31 -> static_cast_int n = n.
Proof.
  intros H. unfold static_cast_int.
  rewrite Z.mod_small by lia. lia.
Qed.

Lemma increment_with_iterator NDEBUG it it1 log :
  Iterator_advance NDEBUG it = Ok it1 ->
  increment NDEBUG (with_iterator it log) = Ok (with_iterator it1 log).
Proof. intros H. unfold increment. simpl. rewrite H. reflexivity. Qed.

Section Turn.

Variable NDEBUG : bool.
Variables (it it1 : Iterator) (log : list string).
Hypothesis Hvalid : _hasValidToken it = true.
Hypothesis Hadvance : Iterator_advance NDEBUG it = Ok it1.

Lemma turn_trivia fuel hs nameIndex typeIndex :
  is_trivia (_token it) = true ->
  parseBlock_loop NDEBUG (S fuel) hs None nameIndex typeIndex
    (with_iterator it log)
  = parseBlock_loop NDEBUG fuel (hs ++ [trivia_node (_token it)]) None
      nameIndex typeIndex (with_iterator it1 log).
Proof.
  intros Htrivia. cbn [parseBlock_loop is_null andb].
  unfold isExhausted. cbn [_tokIter with_iterator]. rewrite Hvalid.
  cbn [negb]. rewrite (increment_with_iterator _ _ _ _ Hadvance).
  cbn [mbind Res_bind].
  unfold is_trivia in Htrivia. unfold trivia_node.
  unfold make_DefWhitespaceSyntax, make_DefCommentSyntax, assert.
  destruct (DefSyntaxToken.type (_token it)) eqn:Hk; try discriminate;
    simpl; rewrite ?orb_true_r; reflexivity.
Qed.

Lemma turn_first_identifier fuel hs typeIndex :
  DefSyntaxToken.type (_token it) = DefSyntaxToken.Token ->
  parseBlock_loop NDEBUG (S fuel) hs None (-1) typeIndex
    (with_iterator it log)
  = parseBlock_loop NDEBUG fuel (hs ++ [Some (DefNameSyntax (_token it))])
      None (static_cast_int (Z.of_nat (length hs))) typeIndex
      (with_iterator it1 log).
Proof.
  intros Hk. cbn [parseBlock_loop is_null andb].
  unfold isExhausted. cbn [_tokIter with_iterator]. rewrite Hvalid.
  cbn [negb]. rewrite (increment_with_iterator _ _ _ _ Hadvance).
  cbn [mbind Res_bind]. rewrite Hk.
  unfold make_DefNameSyntax, assert. rewrite Hk. simpl.
  rewrite orb_true_r. reflexivity.
Qed.

Lemma turn_second_identifier fuel hs nameIndex oldToken :
  0 <= nameIndex ->
  hs !! Z.to_nat nameIndex = Some (Some (DefNameSyntax oldToken)) ->
  DefSyntaxToken.type oldToken = DefSyntaxToken.Token ->
  DefSyntaxToken.type (_token it) = DefSyntaxToken.Token ->
  parseBlock_loop NDEBUG (S fuel) hs None nameIndex (-1)
    (with_iterator it log)
  = parseBlock_loop NDEBUG fuel
      (<[Z.to_nat nameIndex := Some (DefTypeSyntax oldToken)]> hs
       ++ [Some (DefNameSyntax (_token it))])
      None (static_cast_int (Z.of_nat (length hs))) nameIndex
      (with_iterator it1 log).
Proof.
  intros Hn Hlookup Hold Hk. cbn [parseBlock_loop is_null andb].
  unfold isExhausted. cbn [_tokIter with_iterator]. rewrite Hvalid.
  cbn [negb]. rewrite (increment_with_iterator _ _ _ _ Hadvance).
  cbn [mbind Res_bind]. rewrite Hk.
  destruct (nameIndex =? -1) eqn:Hminus; [lia|].
  change (-1 =? -1) with true. cbv iota.
  unfold vector_at. destruct (nameIndex <? 0) eqn:Hneg; [lia|].
  rewrite Hlookup. cbn [mbind Res_bind arrow DefNameSyntax_getToken].
  unfold make_DefTypeSyntax, make_DefNameSyntax, assert.
  rewrite Hold, Hk. simpl. rewrite orb_true_r. simpl.
  rewrite length_insert. reflexivity.
Qed.

Lemma turn_third_identifier fuel hs nameIndex typeIndex :
  nameIndex <> -1 -> typeIndex <> -1 ->
  DefSyntaxToken.type (_token it) = DefSyntaxToken.Token ->
  parseBlock_loop NDEBUG (S fuel) hs None nameIndex typeIndex
    (with_iterator it log)
  = parseBlock_loop NDEBUG fuel hs None nameIndex typeIndex
      (with_iterator it1 (log ++ [invalid_header_warning])).
Proof.
  intros Hn Ht Hk. cbn [parseBlock_loop is_null andb].
  unfold isExhausted. cbn [_tokIter with_iterator]. rewrite Hvalid.
  cbn [negb]. rewrite (increment_with_iterator _ _ _ _ Hadvance).
  cbn [mbind Res_bind]. rewrite Hk.
  destruct (nameIndex =? -1) eqn:Hn'; [lia|].
  destruct (typeIndex =? -1) eqn:Ht'; [lia|].
  reflexivity.
Qed.

Lemma turn_block fuel hs nameIndex typeIndex name type_ :
  DefSyntaxToken.type (_token it) = DefSyntaxToken.BracedBlock ->
  0 <= nameIndex ->
  hs !! Z.to_nat nameIndex = Some name ->
  (if typeIndex =? -1 then type_ = None
   else 0 <= typeIndex /\ hs !! Z.to_nat typeIndex = Some type_) ->
  parseBlock_loop NDEBUG (S (S fuel)) hs None nameIndex typeIndex
    (with_iterator it log)
  = Ok (Some (DefBlockSyntax (_token it) hs type_ name),
        with_iterator it1 log).
Proof.
  intros Hk Hn Hname Htype.
  cbn [parseBlock_loop is_null andb].
  unfold isExhausted. cbn [_tokIter with_iterator]. rewrite Hvalid.
  cbn [negb]. rewrite (increment_with_iterator _ _ _ _ Hadvance).
  cbn [mbind Res_bind]. rewrite Hk.
  unfold make_DefBlockSyntax, assert. rewrite Hk.
  destruct (0 <=? nameIndex) eqn:Hle; [|lia].
  destruct (nameIndex =? -1) eqn:Hminus; [lia|].
  unfold vector_at. destruct (nameIndex <? 0) eqn:Hneg; [lia|].
  rewrite Hname. simpl. rewrite !orb_true_r. simpl.
  destruct (typeIndex =? -1) eqn:Ht.
  - subst type_. reflexivity.
  - destruct Htype as [Hpos Htype].
    destruct (typeIndex <? 0) eqn:Hneg'; [lia|].
    simpl. rewrite Htype. reflexivity.
Qed.

End Turn.

(** ** Reading the token stream *)

Lemma advance_progress NDEBUG it it1 :
  Iterator_advance NDEBUG it = Ok it1 ->
  _hasValidToken it1 = true ->
  (String.length (_cur it1) < String.length (_cur it))%nat
  /\ started (_token it1)
  /\ DefSyntaxToken.type (_token it1) <> DefSyntaxToken.Nothing.
Proof.
  unfold Iterator_advance. intros Hadv Hvalid.
  destruct (DefBlockSyntaxTokeniserFunc NDEBUG (_cur it))
    as [[[found next] tok]|f] eqn:Hrun; [|discriminate].
  cbn [mbind Res_bind] in Hadv. injection Hadv as <-.
  cbn [_hasValidToken] in Hvalid. subst found.
  exact (tokeniser_progress _ _ _ _ Hrun).
Qed.

Lemma reads_cons_inv NDEBUG it tok toks it' :
  reads NDEBUG it (tok :: toks) it' ->
  tok = _token it /\ _hasValidToken it = true
  /\ exists it1, Iterator_advance NDEBUG it = Ok it1
                 /\ reads NDEBUG it1 toks it'.
Proof. intros H. inversion H; subst. eauto. Qed.

Lemma reads_app_inv NDEBUG (l1 : list DefSyntaxToken) :
  forall it l2 it',
    reads NDEBUG it (l1 ++ l2) it' ->
    exists mid, reads NDEBUG it l1 mid /\ reads NDEBUG mid l2 it'.
Proof.
  induction l1 as [|tok l1 IH]; intros it l2 it' H.
  - exists it. split; [constructor|exact H].
  - simpl in H. apply reads_cons_inv in H as (-> & Hvalid & it1 & Hadv & H).
    destruct (IH _ _ _ H) as (mid & H1 & H2).
    exists mid. split; [econstructor; eassumption|exact H2].
Qed.

(** No more tokens are read than the text under the cursor has characters,
    the token at hand apart. *)
Lemma reads_length NDEBUG it toks it' :
  reads NDEBUG it toks it' ->
  (length toks <= S (String.length (_cur it)))%nat.
Proof.
  induction 1 as [it|it it1 toks it' Hvalid Hadv Hreads IH]; [simpl; lia|].
  destruct Hreads as [|it1 it2 toks it' Hvalid1 Hadv1 Hreads]; [simpl; lia|].
  destruct (advance_progress _ _ _ Hadv Hvalid1) as [Hlt _].
  simpl in *. lia.
Qed.

Lemma trivia_run NDEBUG (ws : list DefSyntaxToken) :
  forall it mid log fuel hs nameIndex typeIndex,
    forallb is_trivia ws = true ->
    reads NDEBUG it ws mid ->
    parseBlock_loop NDEBUG (length ws + fuel) hs None nameIndex typeIndex
      (with_iterator it log)
    = parseBlock_loop NDEBUG fuel (hs ++ map trivia_node ws) None nameIndex
        typeIndex (with_iterator mid log).
Proof.
  induction ws as [|w ws IH]; intros it mid log fuel hs n t Hws Hreads.
  - inversion Hreads; subst. simpl. rewrite app_nil_r. reflexivity.
  - apply reads_cons_inv in Hreads as (-> & Hvalid & it1 & Hadv & Hreads).
    simpl in Hws. apply andb_prop in Hws as [Hw Hws].
    change (length (_token it :: ws) + fuel)%nat
      with (S (length ws + fuel)).
    rewrite (turn_trivia NDEBUG it it1 log Hvalid Hadv) by exact Hw.
    rewrite (IH it1 mid log fuel _ n t Hws Hreads).
    rewrite <- app_assoc. reflexivity.
Qed.

(** ** [parseBlock] on the headers it accepts *)

Lemma parseBlock_loop_name_block NDEBUG it it' log name block ws fuel :
  DefSyntaxToken.type name = DefSyntaxToken.Token ->
  DefSyntaxToken.type block = DefSyntaxToken.BracedBlock ->
  forallb is_trivia ws = true ->
  reads NDEBUG it (name :: ws ++ [block]) it' ->
  parseBlock_loop NDEBUG (S (length ws + S (S fuel))) [] None (-1) (-1)
    (with_iterator it log)
  = Ok (Some (DefBlockSyntax block
                (Some (DefNameSyntax name) :: map trivia_node ws)
                None (Some (DefNameSyntax name))),
        with_iterator it' log).
Proof.
  intros Hname Hblock Hws Hreads.
  apply reads_cons_inv in Hreads as (-> & Hvalid & it1 & Hadv & Hreads).
  apply reads_app_inv in Hreads as (it2 & Hreads1 & Hreads).
  apply reads_cons_inv in Hreads as (-> & Hvalid2 & it3 & Hadv2 & Hreads).
  inversion Hreads; subst it'.
  rewrite (turn_first_identifier NDEBUG it it1 log Hvalid Hadv) by exact Hname.
  rewrite (trivia_run NDEBUG ws it1 it2 log _ _ _ _ Hws Hreads1).
  apply (turn_block NDEBUG it2 it3 log Hvalid2 Hadv2); try assumption.
  - discriminate.
  - reflexivity.
  - reflexivity.
Qed.

Lemma header_lookup_name (first : Ptr) (l1 l2 : list Ptr) (second : Ptr) :
  (first :: l1 ++ second :: l2) !! Z.to_nat (Z.of_nat (S (length l1)))
  = Some second.
Proof.
  rewrite Nat2Z.id. simpl. apply list_lookup_middle. reflexivity.
Qed.

Lemma parseBlock_loop_type_name NDEBUG it mid log first second ws1 fuel :
  DefSyntaxToken.type first = DefSyntaxToken.Token ->
  DefSyntaxToken.type second = DefSyntaxToken.Token ->
  forallb is_trivia ws1 = true ->
  Z.of_nat (length ws1) + 1 < 2 ^ 31 ->
  reads NDEBUG it (first :: ws1 ++ [second]) mid ->
  parseBlock_loop NDEBUG (S (length ws1 + S fuel)) [] None (-1) (-1)
    (with_iterator it log)
  = parseBlock_loop NDEBUG fuel
      (Some (DefTypeSyntax first) :: map trivia_node ws1
       ++ [Some (DefNameSyntax second)])
      None (Z.of_nat (S (length ws1))) 0 (with_iterator mid log).
Proof.
  intros Hfirst Hsecond Hws1 Hbound Hreads.
  apply reads_cons_inv in Hreads as (-> & Hvalid & it1 & Hadv & Hreads).
  apply reads_app_inv in Hreads as (it2 & Hreads1 & Hreads).
  apply reads_cons_inv in Hreads as (-> & Hvalid2 & it3 & Hadv2 & Hreads).
  inversion Hreads; subst mid.
  rewrite (turn_first_identifier NDEBUG it it1 log Hvalid Hadv)
    by exact Hfirst.
  rewrite (trivia_run NDEBUG ws1 it1 it2 log _ _ _ _ Hws1 Hreads1).
  cbn [length app Z.of_nat]. rewrite static_cast_int_small by lia.
  rewrite (turn_second_identifier NDEBUG it2 it3 log Hvalid2 Hadv2 fuel _ 0
             (_token it)); [|lia|reflexivity|exact Hfirst|exact Hsecond].
  cbn [length]. rewrite length_map.
  rewrite static_cast_int_small by lia.
  reflexivity.
Qed.

Lemma parseBlock_loop_type_name_block NDEBUG it it' log first second block
    ws1 ws2 fuel :
  DefSyntaxToken.type first = DefSyntaxToken.Token ->
  DefSyntaxToken.type second = DefSyntaxToken.Token ->
  DefSyntaxToken.type block = DefSyntaxToken.BracedBlock ->
  forallb is_trivia ws1 = true ->
  forallb is_trivia ws2 = true ->
  Z.of_nat (length ws1) + 1 < 2 ^ 31 ->
  reads NDEBUG it (first :: ws1 ++ second :: ws2 ++ [block]) it' ->
  parseBlock_loop NDEBUG (S (length ws1 + S (length ws2 + S (S fuel)))) []
    None (-1) (-1) (with_iterator it log)
  = Ok (Some (DefBlockSyntax block
                (Some (DefTypeSyntax first) :: map trivia_node ws1
                 ++ Some (DefNameSyntax second) :: map trivia_node ws2)
                (Some (DefTypeSyntax first)) (Some (DefNameSyntax second))),
        with_iterator it' log).
Proof.
  intros Hfirst Hsecond Hblock Hws1 Hws2 Hbound Hreads.
  change (first :: ws1 ++ second :: ws2 ++ [block])
    with ((first :: ws1) ++ [second] ++ ws2 ++ [block]) in Hreads.
  rewrite app_assoc in Hreads.
  apply reads_app_inv in Hreads as (mid & Hhead & Hreads).
  apply reads_app_inv in Hreads as (it2 & Hreads2 & Hreads).
  apply reads_cons_inv in Hreads as (-> & Hvalid & it3 & Hadv & Hreads).
  inversion Hreads; subst it'.
  rewrite (parseBlock_loop_type_name NDEBUG it mid log first second ws1 _
             Hfirst Hsecond Hws1 Hbound Hhead).
  rewrite (trivia_run NDEBUG ws2 mid it2 log _ _ _ _ Hws2 Hreads2).
  cbn [app]. rewrite <- app_assoc. cbn [app].
  apply (turn_block NDEBUG it2 it3 log Hvalid Hadv); try assumption.
  - lia.
  - rewrite <- (length_map trivia_node ws1). apply header_lookup_name.
  - split; [lia|reflexivity].
Qed.

(** C7: the tokens Token Token BracedBlock (whitespace and comments may
    stand between them) make [parseBlock] return a DeclBlock whose type node
    is made of the first token and whose name node is made of the second,
    each rendering as the raw text of its token; the tokens Token
    BracedBlock make it return a DeclBlock with no type node and the name
    node made of the token. The iterator is left after the block token and
    nothing is written to the warning stream. *)
Theorem header_reclassification (NDEBUG : bool) :
  (forall (it it' : Iterator) (log : list string)
          (first second block : DefSyntaxToken)
          (ws1 ws2 : list DefSyntaxToken),
      DefSyntaxToken.type first = DefSyntaxToken.Token ->
      DefSyntaxToken.type second = DefSyntaxToken.Token ->
      DefSyntaxToken.type block = DefSyntaxToken.BracedBlock ->
      forallb is_trivia ws1 = true ->
      forallb is_trivia ws2 = true ->
      Z.of_nat (length ws1) + 1 < 2 ^ 31 ->
      reads NDEBUG it (first :: ws1 ++ second :: ws2 ++ [block]) it' ->
      parseBlock NDEBUG (with_iterator it log)
      = Ok (Some (DefBlockSyntax block
                    (Some (DefTypeSyntax first) :: map trivia_node ws1
                     ++ Some (DefNameSyntax second) :: map trivia_node ws2)
                    (Some (DefTypeSyntax first))
                    (Some (DefNameSyntax second))),
            with_iterator it' log)
      /\ getString (DefTypeSyntax first) = Ok (DefSyntaxToken.value first)
      /\ getString (DefNameSyntax second) = Ok (DefSyntaxToken.value second))
  /\ (forall (it it' : Iterator) (log : list string)
             (name block : DefSyntaxToken) (ws : list DefSyntaxToken),
         DefSyntaxToken.type name = DefSyntaxToken.Token ->
         DefSyntaxToken.type block = DefSyntaxToken.BracedBlock ->
         forallb is_trivia ws = true ->
         reads NDEBUG it (name :: ws ++ [block]) it' ->
         parseBlock NDEBUG (with_iterator it log)
         = Ok (Some (DefBlockSyntax block
                       (Some (DefNameSyntax name) :: map trivia_node ws)
                       None (Some (DefNameSyntax name))),
               with_iterator it' log)
         /\ getString (DefNameSyntax name) = Ok (DefSyntaxToken.value name)).
Proof.
  split.
  - intros it it' log first second block ws1 ws2
      Hfirst Hsecond Hblock Hws1 Hws2 Hbound Hreads.
    split; [|split; reflexivity].
    pose proof (reads_length _ _ _ _ Hreads) as Hlen.
    cbn [length] in Hlen. rewrite length_app in Hlen. cbn [length] in Hlen.
    rewrite length_app in Hlen. cbn [length] in Hlen.
    unfold parseBlock, enough. cbn [_tokIter with_iterator].
    replace (S (S (String.length (_cur it))))
      with (S (length ws1
               + S (length ws2
                    + S (S (String.length (_cur it)
                            - (length ws1 + length ws2 + 2))))))
      by lia.
    apply parseBlock_loop_type_name_block; assumption.
  - intros it it' log name block ws Hname Hblock Hws Hreads.
    split; [|reflexivity].
    pose proof (reads_length _ _ _ _ Hreads) as Hlen.
    cbn [length] in Hlen. rewrite length_app in Hlen. cbn [length] in Hlen.
    unfold parseBlock, enough. cbn [_tokIter with_iterator].
    replace (S (S (String.length (_cur it))))
      with (S (length ws
               + S (S (String.length (_cur it) - (length ws + 1)))))
      by lia.
    apply parseBlock_loop_name_block; assumption.
Qed.

Lemma header_reclassification_witness :
  (getIterator false "material textures/x {}"
   = Ok (at_token (token DefSyntaxToken.Token "material") " textures/x {}")
   /\ parseBlock false
        (with_iterator
           (at_token (token DefSyntaxToken.Token "material") " textures/x {}")
           [])
      = Ok (Some (DefBlockSyntax (token DefSyntaxToken.BracedBlock "{}")
                    [Some (DefTypeSyntax (token DefSyntaxToken.Token "material"));
                     Some (DefWhitespaceSyntax
                             (token DefSyntaxToken.Whitespace " "));
                     Some (DefNameSyntax
                             (token DefSyntaxToken.Token "textures/x"));
                     Some (DefWhitespaceSyntax
                             (token DefSyntaxToken.Whitespace " "))]
                    (Some (DefTypeSyntax (token DefSyntaxToken.Token "material")))
                    (Some (DefNameSyntax
                             (token DefSyntaxToken.Token "textures/x")))),
            with_iterator exhausted_iterator []))
  /\ (getIterator false "textures/x{}"
      = Ok (at_token (token DefSyntaxToken.Token "textures/x") "{}")
      /\ parseBlock false
           (with_iterator
              (at_token (token DefSyntaxToken.Token "textures/x") "{}") [])
         = Ok (Some (DefBlockSyntax (token DefSyntaxToken.BracedBlock "{}")
                       [Some (DefNameSyntax
                                (token DefSyntaxToken.Token "textures/x"))]
                       None
                       (Some (DefNameSyntax
                                (token DefSyntaxToken.Token "textures/x")))),
               with_iterator exhausted_iterator [])).
Proof.
  split; (split; [reflexivity|]).
  - refine (proj1 (proj1 (header_reclassification false)
                     (at_token (token DefSyntaxToken.Token "material")
                        " textures/x {}")
                     exhausted_iterator []
                     (token DefSyntaxToken.Token "material")
                     (token DefSyntaxToken.Token "textures/x")
                     (token DefSyntaxToken.BracedBlock "{}")
                     [token DefSyntaxToken.Whitespace " "]
                     [token DefSyntaxToken.Whitespace " "]
                     _ _ _ _ _ _ _)); try reflexivity.
    repeat (eapply reads_cons; [reflexivity|reflexivity|]).
    apply reads_nil.
  - refine (proj1 (proj2 (header_reclassification false)
                     (at_token (token DefSyntaxToken.Token "textures/x") "{}")
                     exhausted_iterator []
                     (token DefSyntaxToken.Token "textures/x")
                     (token DefSyntaxToken.BracedBlock "{}")
                     [] _ _ _ _)); try reflexivity.
    repeat (eapply reads_cons; [reflexivity|reflexivity|]).
    apply reads_nil.
Defined.

(** ** The loops over the token stream end *)

Lemma bind_Ok_inv {A B} (m : Res A) (k : A -> Res B) (b : B) :
  m ≫= k = Ok b -> exists a, m = Ok a /\ k a = Ok b.
Proof. destruct m as [a|f]; [eauto|discriminate]. Qed.

Lemma advance_remaining NDEBUG it it1 :
  _hasValidToken it = true ->
  Iterator_advance NDEBUG it = Ok it1 ->
  (remaining it1 < remaining it)%nat.
Proof.
  intros Hvalid Hadv. unfold remaining. rewrite Hvalid.
  destruct (_hasValidToken it1) eqn:Hvalid1; [|lia].
  destruct (advance_progress _ _ _ Hadv Hvalid1) as [Hlt _]. lia.
Qed.

Lemma increment_remaining NDEBUG this this1 :
  _hasValidToken (_tokIter this) = true ->
  increment NDEBUG this = Ok this1 ->
  (remaining (_tokIter this1) < remaining (_tokIter this))%nat.
Proof.
  unfold increment. intros Hvalid H.
  apply bind_Ok_inv in H as (it1 & Hadv & H). injection H as <-.
  exact (advance_remaining _ _ _ Hvalid Hadv).
Qed.

Lemma parseBlock_loop_remaining NDEBUG (fuel : nat) :
  forall hs block nameIndex typeIndex this r this',
    parseBlock_loop NDEBUG fuel hs block nameIndex typeIndex this
    = Ok (r, this') ->
    (remaining (_tokIter this') <= remaining (_tokIter this))%nat
    /\ (block = None -> _hasValidToken (_tokIter this) = true ->
        (remaining (_tokIter this') < remaining (_tokIter this))%nat).
Proof.
  induction fuel as [|fuel IH]; intros hs block n t this r this' H;
    [discriminate|].
  cbn [parseBlock_loop] in H. unfold isExhausted in H.
  destruct block as [b|]; cbn [is_null andb] in H.
  { injection H as <- <-. split; [lia|discriminate]. }
  destruct (_hasValidToken (_tokIter this)) eqn:Hvalid; cbn [negb] in H.
  2:{ injection H as <- <-. split; [lia|discriminate]. }
  apply bind_Ok_inv in H as (this1 & Hinc & H).
  pose proof (increment_remaining _ _ _ Hvalid Hinc) as Hlt.
  assert (Hgoal : (remaining (_tokIter this') <= remaining (_tokIter this1))%nat).
  { destruct (DefSyntaxToken.type (_token (_tokIter this))).
    - apply IH in H as [H _]. exact H.
    - apply bind_Ok_inv in H as (node & _ & H). apply IH in H as [H _].
      exact H.
    - apply bind_Ok_inv in H as (node & _ & H). apply IH in H as [H _].
      exact H.
    - destruct (n =? -1).
      + apply bind_Ok_inv in H as (node & _ & H). apply IH in H as [H _].
        exact H.
      + destruct (t =? -1).
        * apply bind_Ok_inv in H as (p & _ & H).
          apply bind_Ok_inv in H as (oldName & _ & H).
          apply bind_Ok_inv in H as (oldToken & _ & H).
          apply bind_Ok_inv in H as (typeNode & _ & H).
          apply bind_Ok_inv in H as (node & _ & H).
          apply IH in H as [H _]. exact H.
        * apply IH in H as [H _]. exact H.
    - apply bind_Ok_inv in H as (node & _ & H). apply IH in H as [H _].
      exact H.
    - apply bind_Ok_inv in H as (node & _ & H). apply IH in H as [H _].
      exact H. }
  split; [lia|intros _ _; lia].
Qed.

Lemma parseBlock_remaining NDEBUG this r this' :
  _hasValidToken (_tokIter this) = true ->
  parseBlock NDEBUG this = Ok (r, this') ->
  (remaining (_tokIter this') < remaining (_tokIter this))%nat.
Proof.
  intros Hvalid H. unfold parseBlock in H.
  apply parseBlock_loop_remaining in H as [_ H]. apply H; [reflexivity|].
  exact Hvalid.
Qed.

(** A token of kind [Nothing] at hand would keep [parse] turning without
    end; the tokeniser function never hands one out
    ([tokeniser_progress]). *)
Lemma parse_loop_nothing NDEBUG (fuel : nat) tree this :
  _hasValidToken (_tokIter this) = true ->
  DefSyntaxToken.type (_token (_tokIter this)) = DefSyntaxToken.Nothing ->
  parse_loop NDEBUG fuel tree this = Fail OutOfFuel.
Proof.
  intros Hvalid Hk. induction fuel as [|fuel IH]; [reflexivity|].
  cbn [parse_loop]. unfold isExhausted. rewrite Hvalid, Hk. exact IH.
Qed.

(** Fuel above what the iterator has left does not change the result. *)
Lemma parse_loop_fuel NDEBUG (f1 : nat) :
  forall f2 tree this,
    (remaining (_tokIter this) < f1)%nat ->
    (remaining (_tokIter this) < f2)%nat ->
    parse_loop NDEBUG f1 tree this = parse_loop NDEBUG f2 tree this.
Proof.
  induction f1 as [|f1 IH]; intros f2 tree this H1 H2; [lia|].
  destruct f2 as [|f2]; [lia|].
  cbn [parse_loop]. unfold isExhausted.
  destruct (_hasValidToken (_tokIter this)) eqn:Hvalid; [|reflexivity].
  cbn [negb].
  assert (Hstep : forall node : DefSyntaxNode,
             (syntaxTree ← appendToRoot tree (Some node);
              this0 ← increment NDEBUG this;
              parse_loop NDEBUG f1 syntaxTree this0)
             = (syntaxTree ← appendToRoot tree (Some node);
                this0 ← increment NDEBUG this;
                parse_loop NDEBUG f2 syntaxTree this0)).
  { intros node. destruct (appendToRoot tree (Some node)) as [tree'|];
      [|reflexivity].
    cbn [mbind Res_bind].
    destruct (increment NDEBUG this) as [this1|] eqn:Hinc; [|reflexivity].
    cbn [mbind Res_bind].
    pose proof (increment_remaining _ _ _ Hvalid Hinc).
    apply IH; lia. }
  destruct (DefSyntaxToken.type (_token (_tokIter this))) eqn:Hk.
  - rewrite !parse_loop_nothing by assumption. reflexivity.
  - destruct (make_DefWhitespaceSyntax NDEBUG (_token (_tokIter this)));
      [|reflexivity].
    apply Hstep.
  - destruct (make_DefBlockSyntax NDEBUG (_token (_tokIter this)) [] (-1) (-1))
      as [node|]; [|reflexivity].
    cbn [mbind Res_bind].
    destruct (appendToRoot tree (Some node)) as [tree'|]; [|reflexivity].
    cbn [mbind Res_bind]. unfold increment. cbn [_tokIter warn rWarning].
    destruct (Iterator_advance NDEBUG (_tokIter this)) as [it1|] eqn:Hadv;
      [|reflexivity].
    cbn [mbind Res_bind].
    pose proof (advance_remaining _ _ _ Hvalid Hadv).
    apply IH; cbn [_tokIter]; lia.
  - destruct (parseBlock NDEBUG this) as [[block this1]|] eqn:Hblock;
      [|reflexivity].
    cbn [mbind Res_bind].
    destruct (appendToRoot tree block) as [tree'|]; [|reflexivity].
    cbn [mbind Res_bind].
    pose proof (parseBlock_remaining _ _ _ _ Hvalid Hblock).
    apply IH; lia.
  - destruct (make_DefCommentSyntax NDEBUG (_token (_tokIter this)));
      [|reflexivity].
    apply Hstep.
  - destruct (make_DefCommentSyntax NDEBUG (_token (_tokIter this)));
      [|reflexivity].
    apply Hstep.
Qed.

Lemma enough_remaining (it : Iterator) : (remaining it < enough it)%nat.
Proof. unfold remaining, enough. destruct (_hasValidToken it); lia. Qed.

Lemma parse_loop_parse_from NDEBUG fuel tree this :
  (remaining (_tokIter this) < fuel)%nat ->
  parse_loop NDEBUG fuel tree this = parse_from NDEBUG tree this.
Proof.
  intros H. unfold parse_from. apply parse_loop_fuel; [exact H|].
  apply enough_remaining.
Qed.

Lemma ends_Ok {A} (a : A) : ends (Ok a).
Proof. discriminate. Qed.

Lemma ends_bind {A B} (m : Res A) (k : A -> Res B) :
  ends m -> (forall a, m = Ok a -> ends (k a)) -> ends (m ≫= k).
Proof.
  intros Hm Hk. destruct m as [a|f]; [apply Hk; reflexivity|].
  intros H. apply Hm. cbn [mbind Res_bind] in H. injection H as ->.
  reflexivity.
Qed.

Lemma ends_assert NDEBUG expr cond : ends (assert NDEBUG expr cond).
Proof. unfold assert. destruct (NDEBUG || cond); discriminate. Qed.

Lemma ends_vector_at {A} (v : list A) (index : Z) : ends (vector_at v index).
Proof.
  unfold vector_at. destruct (index <? 0); [discriminate|].
  destruct (v !! Z.to_nat index); discriminate.
Qed.

Lemma ends_arrow {A} (p : option A) : ends (arrow p).
Proof. destruct p; discriminate. Qed.

Lemma ends_make_DefWhitespaceSyntax NDEBUG tok :
  ends (make_DefWhitespaceSyntax NDEBUG tok).
Proof.
  unfold make_DefWhitespaceSyntax.
  apply ends_bind; [apply ends_assert|intros; apply ends_Ok].
Qed.

Lemma ends_make_DefCommentSyntax NDEBUG tok :
  ends (make_DefCommentSyntax NDEBUG tok).
Proof.
  unfold make_DefCommentSyntax.
  apply ends_bind; [apply ends_assert|intros; apply ends_Ok].
Qed.

Lemma ends_make_DefTypeSyntax NDEBUG tok : ends (make_DefTypeSyntax NDEBUG tok).
Proof.
  unfold make_DefTypeSyntax.
  apply ends_bind; [apply ends_assert|intros; apply ends_Ok].
Qed.

Lemma ends_make_DefNameSyntax NDEBUG tok : ends (make_DefNameSyntax NDEBUG tok).
Proof.
  unfold make_DefNameSyntax.
  apply ends_bind; [apply ends_assert|intros; apply ends_Ok].
Qed.

Lemma ends_make_DefBlockSyntax NDEBUG tok hs nameIndex typeIndex :
  ends (make_DefBlockSyntax NDEBUG tok hs nameIndex typeIndex).
Proof.
  unfold make_DefBlockSyntax.
  repeat (apply ends_bind; [|intros]);
    try apply ends_assert; try apply ends_Ok.
  - destruct (negb (nameIndex =? -1));
      [apply ends_vector_at|apply ends_Ok].
  - destruct (negb (typeIndex =? -1));
      [apply ends_vector_at|apply ends_Ok].
Qed.

Lemma ends_DefNameSyntax_getToken n : ends (DefNameSyntax_getToken n).
Proof. destruct n; discriminate. Qed.

Lemma ends_appendToRoot tree node : ends (appendToRoot tree node).
Proof.
  unfold appendToRoot.
  apply ends_bind; [apply ends_arrow|intros; apply ends_Ok].
Qed.

Lemma ends_tokeniser NDEBUG next : ends (DefBlockSyntaxTokeniserFunc NDEBUG next).
Proof.
  destruct (tokeniser_cases NDEBUG next) as [[_ H]|[[_ H]|[H|H]]].
  - rewrite H. discriminate.
  - rewrite H. discriminate.
  - destruct H as (? & ? & ? & ? & _ & _ & _ & -> & _). discriminate.
  - destruct H as (? & ? & -> & _). discriminate.
Qed.

Lemma ends_advance NDEBUG it : ends (Iterator_advance NDEBUG it).
Proof.
  unfold Iterator_advance.
  apply ends_bind; [apply ends_tokeniser|].
  intros [[found next] tok] _. apply ends_Ok.
Qed.

Lemma ends_increment NDEBUG this : ends (increment NDEBUG this).
Proof.
  unfold increment.
  apply ends_bind; [apply ends_advance|intros; apply ends_Ok].
Qed.

Lemma ends_getIterator NDEBUG str : ends (getIterator NDEBUG str).
Proof. apply ends_advance. Qed.

Create HintDb ends.

#[local] Hint Resolve ends_Ok ends_assert ends_vector_at ends_arrow
  ends_make_DefWhitespaceSyntax ends_make_DefCommentSyntax
  ends_make_DefTypeSyntax ends_make_DefNameSyntax ends_make_DefBlockSyntax
  ends_DefNameSyntax_getToken ends_appendToRoot ends_advance ends_increment
  ends_getIterator : ends.

Lemma parseBlock_loop_ends NDEBUG (fuel : nat) :
  forall hs block nameIndex typeIndex this,
    (remaining (_tokIter this) < fuel)%nat ->
    ends (parseBlock_loop NDEBUG fuel hs block nameIndex typeIndex this).
Proof.
  induction fuel as [|fuel IH]; intros hs block n t this Hfuel; [lia|].
  cbn [parseBlock_loop]. unfold isExhausted.
  destruct (is_null block); cbn [andb]; [|apply ends_Ok].
  destruct (_hasValidToken (_tokIter this)) eqn:Hvalid; cbn [negb];
    [|apply ends_Ok].
  apply ends_bind; [apply ends_increment|]. intros this1 Hinc.
  pose proof (increment_remaining _ _ _ Hvalid Hinc) as Hlt.
  assert (Hrec : forall hs block n t log,
             ends (parseBlock_loop NDEBUG fuel hs block n t
                     (with_iterator (_tokIter this1) log))).
  { intros. apply IH. cbn [_tokIter with_iterator]. lia. }
  assert (Hrec' : forall hs block n t,
             ends (parseBlock_loop NDEBUG fuel hs block n t this1)).
  { intros. apply IH. lia. }
  destruct (DefSyntaxToken.type (_token (_tokIter this)));
    try (apply Hrec');
    try (apply ends_bind; [auto with ends|intros; apply Hrec']).
  destruct (n =? -1);
    [apply ends_bind; [auto with ends|intros; apply Hrec']|].
  destruct (t =? -1); [|apply Hrec].
  repeat (apply ends_bind; [auto with ends|intros]). apply Hrec'.
Qed.

Lemma parseBlock_ends NDEBUG this : ends (parseBlock NDEBUG this).
Proof. apply parseBlock_loop_ends, enough_remaining. Qed.

Lemma advance_well_formed NDEBUG it it1 :
  Iterator_advance NDEBUG it = Ok it1 -> well_formed it1.
Proof.
  intros Hadv Hvalid. exact (proj2 (proj2 (advance_progress _ _ _ Hadv Hvalid))).
Qed.

Lemma increment_well_formed NDEBUG this this1 :
  increment NDEBUG this = Ok this1 -> well_formed (_tokIter this1).
Proof.
  unfold increment. intros H.
  apply bind_Ok_inv in H as (it1 & Hadv & H). injection H as <-.
  exact (advance_well_formed _ _ _ Hadv).
Qed.

Lemma parseBlock_loop_well_formed NDEBUG (fuel : nat) :
  forall hs block nameIndex typeIndex this r this',
    well_formed (_tokIter this) ->
    parseBlock_loop NDEBUG fuel hs block nameIndex typeIndex this
    = Ok (r, this') ->
    well_formed (_tokIter this').
Proof.
  induction fuel as [|fuel IH]; intros hs block n t this r this' Hwf H;
    [discriminate|].
  cbn [parseBlock_loop] in H.
  destruct (is_null block && negb (isExhausted (_tokIter this))).
  2:{ injection H as <- <-. exact Hwf. }
  apply bind_Ok_inv in H as (this1 & Hinc & H).
  pose proof (increment_well_formed _ _ _ Hinc) as Hwf1.
  destruct (DefSyntaxToken.type (_token (_tokIter this)));
    try (apply bind_Ok_inv in H as (node & _ & H));
    try (eapply IH; [|exact H]; exact Hwf1).
  destruct (n =? -1).
  - apply bind_Ok_inv in H as (node & _ & H).
    eapply IH; [|exact H]; exact Hwf1.
  - destruct (t =? -1).
    + repeat (apply bind_Ok_inv in H as (? & _ & H)).
      eapply IH; [|exact H]; exact Hwf1.
    + eapply IH; [|exact H]; exact Hwf1.
Qed.

Lemma parse_loop_ends NDEBUG (fuel : nat) :
  forall tree this,
    well_formed (_tokIter this) ->
    (remaining (_tokIter this) < fuel)%nat ->
    ends (parse_loop NDEBUG fuel tree this).
Proof.
  induction fuel as [|fuel IH]; intros tree this Hwf Hfuel; [lia|].
  cbn [parse_loop]. unfold isExhausted.
  destruct (_hasValidToken (_tokIter this)) eqn:Hvalid; cbn [negb];
    [|apply ends_Ok].
  assert (Hstep : forall tree' this',
             _tokIter this' = _tokIter this ->
             ends (this1 ← increment NDEBUG this';
                   parse_loop NDEBUG fuel tree' this1)).
  { intros tree' this' Heq.
    apply ends_bind; [apply ends_increment|]. intros this1 Hinc.
    pose proof (increment_well_formed _ _ _ Hinc).
    assert (_hasValidToken (_tokIter this') = true) as Hvalid'
        by (rewrite Heq; exact Hvalid).
    pose proof (increment_remaining _ _ _ Hvalid' Hinc).
    apply IH; [assumption|]. rewrite Heq in *. lia. }
  pose proof (Hwf Hvalid) as Hkind.
  destruct (DefSyntaxToken.type (_token (_tokIter this))) eqn:Hk;
    [congruence|..].
  - apply ends_bind; [auto with ends|]. intros node _.
    apply ends_bind; [auto with ends|]. intros tree' _.
    apply Hstep. reflexivity.
  - apply ends_bind; [auto with ends|]. intros node _.
    apply ends_bind; [auto with ends|]. intros tree' _.
    apply Hstep. reflexivity.
  - apply ends_bind; [apply parseBlock_ends|]. intros [block this1] Hblock.
    apply ends_bind; [auto with ends|]. intros tree' _.
    pose proof (parseBlock_remaining _ _ _ _ Hvalid Hblock).
    apply IH; [|lia].
    unfold parseBlock in Hblock.
    exact (parseBlock_loop_well_formed _ _ _ _ _ _ _ _ _ Hwf Hblock).
  - apply ends_bind; [auto with ends|]. intros node _.
    apply ends_bind; [auto with ends|]. intros tree' _.
    apply Hstep. reflexivity.
  - apply ends_bind; [auto with ends|]. intros node _.
    apply ends_bind; [auto with ends|]. intros tree' _.
    apply Hstep. reflexivity.
Qed.

(** The fuel the loops are given is enough: on every text the loops of
    [parse] and [parseBlock] come to a result or to a fault of the program,
    never to the end of the fuel. *)
Theorem parse_string_ends (NDEBUG : bool) (str : string) :
  ends (parse_string NDEBUG str).
Proof.
  unfold parse_string, make_DefBlockSyntaxParser.
  apply ends_bind.
  { apply ends_bind; [apply ends_getIterator|intros; apply ends_Ok]. }
  intros this Hthis.
  apply bind_Ok_inv in Hthis as (it & Hit & Hthis). injection Hthis as <-.
  apply ends_bind; [|intros [tree this'] _; apply ends_Ok].
  unfold parse. apply parse_loop_ends.
  - exact (advance_well_formed _ _ _ Hit).
  - apply enough_remaining.
Qed.

(** ** A third identifier before the brace *)

Lemma parseBlock_loop_three_identifiers NDEBUG it it' log first second third
    block ws1 ws2 ws3 fuel :
  DefSyntaxToken.type first = DefSyntaxToken.Token ->
  DefSyntaxToken.type second = DefSyntaxToken.Token ->
  DefSyntaxToken.type third = DefSyntaxToken.Token ->
  DefSyntaxToken.type block = DefSyntaxToken.BracedBlock ->
  forallb is_trivia ws1 = true ->
  forallb is_trivia ws2 = true ->
  forallb is_trivia ws3 = true ->
  Z.of_nat (length ws1) + 1 < 2 ^ 31 ->
  reads NDEBUG it
    (first :: ws1 ++ second :: ws2 ++ third :: ws3 ++ [block]) it' ->
  parseBlock_loop NDEBUG
    (S (length ws1 + S (length ws2 + S (length ws3 + S (S fuel))))) []
    None (-1) (-1) (with_iterator it log)
  = Ok (Some (DefBlockSyntax block
                (Some (DefTypeSyntax first) :: map trivia_node ws1
                 ++ Some (DefNameSyntax second) :: map trivia_node ws2
                 ++ map trivia_node ws3)
                (Some (DefTypeSyntax first)) (Some (DefNameSyntax second))),
        with_iterator it' (log ++ [invalid_header_warning])).
Proof.
  intros Hfirst Hsecond Hthird Hblock Hws1 Hws2 Hws3 Hbound Hreads.
  change (first :: ws1 ++ second :: ws2 ++ third :: ws3 ++ [block])
    with ((first :: ws1) ++ [second] ++ ws2 ++ third :: ws3 ++ [block])
    in Hreads.
  rewrite app_assoc in Hreads.
  apply reads_app_inv in Hreads as (mid & Hhead & Hreads).
  apply reads_app_inv in Hreads as (it2 & Hreads2 & Hreads).
  apply reads_cons_inv in Hreads as (-> & Hvalid2 & it3 & Hadv2 & Hreads).
  apply reads_app_inv in Hreads as (it4 & Hreads3 & Hreads).
  apply reads_cons_inv in Hreads as (-> & Hvalid4 & it5 & Hadv4 & Hreads).
  inversion Hreads; subst it'.
  rewrite (parseBlock_loop_type_name NDEBUG it mid log first second ws1 _
             Hfirst Hsecond Hws1 Hbound Hhead).
  rewrite (trivia_run NDEBUG ws2 mid it2 log _ _ _ _ Hws2 Hreads2).
  rewrite (turn_third_identifier NDEBUG it2 it3 log Hvalid2 Hadv2);
    [|lia|lia|exact Hthird].
  rewrite (trivia_run NDEBUG ws3 it3 it4 _ _ _ _ _ Hws3 Hreads3).
  cbn [app]. rewrite <- !app_assoc. cbn [app].
  apply (turn_block NDEBUG it4 it5 _ Hvalid4 Hadv4); try assumption.
  - lia.
  - rewrite <- (length_map trivia_node ws1). apply header_lookup_name.
  - split; [lia|reflexivity].
Qed.

(** C9: when a third bare token comes before the braced block (whitespace
    and comments may stand between the tokens), [parseBlock] writes the
    warning and makes no node of that token; the DeclBlock it returns has
    its type node made of the first token and its name node of the second;
    and [parse] goes on: from the first token it does what appending this
    block and parsing from the token after the block does. *)
Theorem third_identifier_is_discarded (NDEBUG : bool) (it it' : Iterator)
    (log : list string) (first second third block : DefSyntaxToken)
    (ws1 ws2 ws3 : list DefSyntaxToken) :
  DefSyntaxToken.type first = DefSyntaxToken.Token ->
  DefSyntaxToken.type second = DefSyntaxToken.Token ->
  DefSyntaxToken.type third = DefSyntaxToken.Token ->
  DefSyntaxToken.type block = DefSyntaxToken.BracedBlock ->
  forallb is_trivia ws1 = true ->
  forallb is_trivia ws2 = true ->
  forallb is_trivia ws3 = true ->
  Z.of_nat (length ws1) + 1 < 2 ^ 31 ->
  reads NDEBUG it
    (first :: ws1 ++ second :: ws2 ++ third :: ws3 ++ [block]) it' ->
  let node :=
    DefBlockSyntax block
      (Some (DefTypeSyntax first) :: map trivia_node ws1
       ++ Some (DefNameSyntax second) :: map trivia_node ws2
       ++ map trivia_node ws3)
      (Some (DefTypeSyntax first)) (Some (DefNameSyntax second)) in
  parseBlock NDEBUG (with_iterator it log)
  = Ok (Some node, with_iterator it' (log ++ [invalid_header_warning]))
  /\ forall tree : DefSyntaxTree,
       parse_from NDEBUG tree (with_iterator it log)
       = (tree' ← appendToRoot tree (Some node);
          parse_from NDEBUG tree'
            (with_iterator it' (log ++ [invalid_header_warning]))).
Proof.
  intros Hfirst Hsecond Hthird Hblock Hws1 Hws2 Hws3 Hbound Hreads node.
  assert (Hparse : parseBlock NDEBUG (with_iterator it log)
                   = Ok (Some node,
                         with_iterator it'
                           (log ++ [invalid_header_warning]))).
  { pose proof (reads_length _ _ _ _ Hreads) as Hlen.
    cbn [length] in Hlen.
    repeat (rewrite length_app in Hlen; cbn [length] in Hlen).
    unfold parseBlock, enough. cbn [_tokIter with_iterator].
    replace (S (S (String.length (_cur it))))
      with (S (length ws1
               + S (length ws2
                    + S (length ws3
                         + S (S (String.length (_cur it)
                                 - (length ws1 + length ws2
                                    + length ws3 + 3)))))))
      by lia.
    apply (parseBlock_loop_three_identifiers NDEBUG it it' log first
             second third); assumption. }
  split; [exact Hparse|].
  intros tree.
  apply reads_cons_inv in Hreads as (-> & Hvalid & _).
  unfold parse_from at 1. unfold enough. cbn [_tokIter with_iterator].
  remember (S (String.length (_cur it))) as fuel eqn:Hfuel.
  cbn [parse_loop]. unfold isExhausted. cbn [_tokIter with_iterator].
  rewrite Hvalid, Hfirst. cbn [negb].
  rewrite Hparse. cbn [mbind Res_bind].
  destruct (appendToRoot tree (Some node)) as [tree'|]; [|reflexivity].
  cbn [mbind Res_bind].
  apply parse_loop_parse_from.
  pose proof (parseBlock_remaining NDEBUG (with_iterator it log) _ _
                Hvalid Hparse) as Hlt.
  cbn [_tokIter with_iterator] in *. unfold remaining in Hlt at 2.
  rewrite Hvalid in Hlt. lia.
Qed.

Lemma third_identifier_is_discarded_witness :
  parseBlock false
    (with_iterator (at_token (token DefSyntaxToken.Token "a") " b c {}") [])
  = Ok (Some (DefBlockSyntax (token DefSyntaxToken.BracedBlock "{}")
                [Some (DefTypeSyntax (token DefSyntaxToken.Token "a"));
                 Some (DefWhitespaceSyntax
                         (token DefSyntaxToken.Whitespace " "));
                 Some (DefNameSyntax (token DefSyntaxToken.Token "b"));
                 Some (DefWhitespaceSyntax
                         (token DefSyntaxToken.Whitespace " "));
                 Some (DefWhitespaceSyntax
                         (token DefSyntaxToken.Whitespace " "))]
                (Some (DefTypeSyntax (token DefSyntaxToken.Token "a")))
                (Some (DefNameSyntax (token DefSyntaxToken.Token "b")))),
        with_iterator exhausted_iterator [invalid_header_warning]).
Proof.
  refine (proj1 (third_identifier_is_discarded false
                   (at_token (token DefSyntaxToken.Token "a") " b c {}")
                   exhausted_iterator []
                   (token DefSyntaxToken.Token "a")
                   (token DefSyntaxToken.Token "b")
                   (token DefSyntaxToken.Token "c")
                   (token DefSyntaxToken.BracedBlock "{}")
                   [token DefSyntaxToken.Whitespace " "]
                   [token DefSyntaxToken.Whitespace " "]
                   [token DefSyntaxToken.Whitespace " "]
                   _ _ _ _ _ _ _ _ _)); try reflexivity.
  repeat (eapply reads_cons; [reflexivity|reflexivity|]).
  apply reads_nil.
Defined.

(** ** Bare tokens *)

Lemma token_state_run NDEBUG (s : string) :
  forall openedBlocks tok,
    started tok ->
    DefBlockSyntaxTokeniserFunc_loop NDEBUG State.Token openedBlocks tok s
    = Ok (true, snd (maximal_run s), append_all tok (fst (maximal_run s))).
Proof.
  induction s as [|c rest IH]; intros openedBlocks tok Htok.
  - simpl. unfold started in Htok. rewrite Htok, append_all_nil. reflexivity.
  - cbn [DefBlockSyntaxTokeniserFunc_loop maximal_run].
    unfold started in Htok. rewrite Htok. rewrite assert_holds.
    cbn [mbind Res_bind]. unfold ends_bare_token, begins_comment, peek.
    destruct (IsWhitespace c) eqn:Hws;
      destruct (Ascii.eqb c OpeningBrace) eqn:Hopen;
      destruct (Ascii.eqb c ClosingBrace) eqn:Hclose;
      destruct (Ascii.eqb c Slash) eqn:Hslash;
      cbn [orb andb fst snd];
      try (rewrite append_all_nil; reflexivity);
      try (apply Ascii.eqb_eq in Hslash; subst c; discriminate).
    + (* a slash *)
      destruct rest as [|c' rest'].
      * change (Ascii.eqb NUL Asterisk || Ascii.eqb NUL Slash) with false.
        cbv iota. rewrite IH by apply started_append.
        cbn [maximal_run fst snd]. rewrite append_all_cons. reflexivity.
      * destruct (Ascii.eqb c' Asterisk || Ascii.eqb c' Slash) eqn:Hc'.
        -- cbn [fst snd]. rewrite append_all_nil. reflexivity.
        -- rewrite IH by apply started_append.
           destruct (maximal_run (String c' rest')) as [run rest''].
           cbn [fst snd]. rewrite append_all_cons. reflexivity.
    + (* an ordinary character *)
      rewrite IH by apply started_append.
      destruct rest as [|c' rest']; cbn [orb];
        destruct (maximal_run _) as [run rest''];
        cbn [fst snd]; rewrite append_all_cons; reflexivity.
Qed.

(** Where the token starts on a character that is no whitespace, no brace
    and no slash, the token is the maximal run of the design document. *)
Lemma bare_token_is_maximal_run NDEBUG (c : ascii) (rest : string) :
  IsWhitespace c = false ->
  Ascii.eqb c OpeningBrace = false ->
  Ascii.eqb c ClosingBrace = false ->
  Ascii.eqb c Slash = false ->
  DefBlockSyntaxTokeniserFunc NDEBUG (String c rest)
  = Ok (true, snd (maximal_run (String c rest)),
        token DefSyntaxToken.Token (fst (maximal_run (String c rest)))).
Proof.
  intros Hws Hopen Hclose Hslash.
  unfold DefBlockSyntaxTokeniserFunc.
  cbn [DefBlockSyntaxTokeniserFunc_loop maximal_run].
  unfold ends_bare_token, begins_comment.
  rewrite Hws, Hopen, Hclose, Hslash.
  rewrite token_state_run by apply started_append.
  destruct rest as [|c' rest']; cbn [orb andb];
    destruct (maximal_run _) as [run rest'']; reflexivity.
Qed.

(** C2: started on [/a b], where the slash opens no comment, the tokeniser
    function returns the token [//] and leaves the cursor on [ b]: the slash
    is in the token twice and the [a] after it is skipped; the maximal run of
    the design document at that place is [/a]. *)
Theorem leading_slash_is_doubled (NDEBUG : bool) :
  DefBlockSyntaxTokeniserFunc NDEBUG "/a b"
  = Ok (true, " b", token DefSyntaxToken.Token "//")
  /\ maximal_run "/a b" = ("/a", " b").
Proof. destruct NDEBUG; split; reflexivity. Qed.

(** ** Unclosed comments *)

Lemma unclosed_block_comment NDEBUG (body : string) :
  forall openedBlocks tok,
    has_comment_end body = false ->
    started tok ->
    DefBlockSyntaxTokeniserFunc_loop NDEBUG State.BlockComment openedBlocks
      tok body
    = Ok (true, EmptyString, append_all tok body).
Proof.
  induction body as [|c rest IH]; intros openedBlocks tok Hbody Htok.
  - simpl. unfold started in Htok. rewrite Htok, append_all_nil. reflexivity.
  - cbn [DefBlockSyntaxTokeniserFunc_loop].
    assert (Hrest : DefBlockSyntaxTokeniserFunc_loop NDEBUG State.BlockComment
                      openedBlocks (DefSyntaxToken.append tok c) rest
                    = Ok (true, EmptyString, append_all tok (String c rest))).
    { rewrite IH; [rewrite append_all_cons; reflexivity| |apply started_append].
      destruct rest as [|c' rest']; [reflexivity|].
      cbn [has_comment_end] in Hbody.
      apply orb_false_elim in Hbody as [_ Hbody]. exact Hbody. }
    destruct (Ascii.eqb c Asterisk) eqn:Hstar; [|exact Hrest].
    destruct rest as [|c' rest']; [exact Hrest|].
    cbn [has_comment_end] in Hbody. rewrite Hstar in Hbody.
    apply orb_false_elim in Hbody as [Hc' _]. cbn [andb] in Hc'.
    rewrite Hc'. exact Hrest.
Qed.

(** A block comment that is never closed still gives a token: the rest of
    the text, as a block comment, and the cursor is at the end. *)
Lemma block_comment_without_end NDEBUG (body : string) :
  has_comment_end body = false ->
  DefBlockSyntaxTokeniserFunc NDEBUG ("/*" +:+ body)
  = Ok (true, EmptyString,
        token DefSyntaxToken.BlockComment ("/*" +:+ body)).
Proof.
  intros Hbody. unfold DefBlockSyntaxTokeniserFunc.
  change ("/*" +:+ body) with (String Slash (String Asterisk body)).
  cbn [DefBlockSyntaxTokeniserFunc_loop].
  change (IsWhitespace Slash) with false.
  change (Ascii.eqb Slash OpeningBrace) with false.
  change (Ascii.eqb Slash Slash) with true.
  change (Ascii.eqb Asterisk Asterisk) with true. cbv iota.
  rewrite unclosed_block_comment; [reflexivity|exact Hbody|].
  apply started_append.
Qed.

(** C5: started on the text [/], the tokeniser function moves the cursor
    past the end marker; on every other text it returns, either with a
    token that holds a character or, only on the empty text, with the report
    that nothing is left. *)
Theorem tokeniser_faults_on_final_slash (NDEBUG : bool) :
  DefBlockSyntaxTokeniserFunc NDEBUG "/" = Fail CursorPastEnd
  /\ forall next : string,
       next = "/"
       \/ (next = EmptyString
           /\ DefBlockSyntaxTokeniserFunc NDEBUG next
              = Ok (false, EmptyString, DefSyntaxToken.clear))
       \/ exists next' tok,
            DefBlockSyntaxTokeniserFunc NDEBUG next = Ok (true, next', tok)
            /\ started tok.
Proof.
  split; [reflexivity|]. intros next.
  destruct (tokeniser_cases NDEBUG next) as [H|[[H _]|[H|H]]].
  - right. left. exact H.
  - left. exact H.
  - right. right.
    destruct H as (c & rest & consumed & next' & _ & _ & _ & H & _).
    eexists _, _. split; [exact H|reflexivity].
  - right. right. destruct H as (tok & next' & H & _ & Htok & _).
    exists next', tok. split; assumption.
Qed.

(** ** The parser on sample texts *)

(** C1: the text [/a {}] is one declaration block, name [/a] and empty
    body; parsing it and rendering the tree gives [// {}], not the text.
    (Off that slip the round trip holds: [roundtrip_of_clean_parse]
    below.) *)
Theorem roundtrip_fails_on_leading_slash (NDEBUG : bool) :
  parse_getString NDEBUG "/a {}" = Ok "// {}"
  /\ parse_getString NDEBUG "/a {}" <> Ok "/a {}".
Proof. destruct NDEBUG; split; (reflexivity || discriminate). Qed.

(** C3: on the text [{}] the parser of a build that checks assertions stops
    in the constructor of [DefBlockSyntax], at [assert(nameIndex >= 0)]; the
    parser of a build without assertions appends a DeclBlock with no name and
    no type to the root, writes the warning, and the tree renders as the
    text. *)
Theorem anonymous_block_fails_assertion :
  parse_string false "{}" = Fail (AssertionFailed "nameIndex >= 0")
  /\ parse_string true "{}"
     = Ok ({| _root :=
                Some (Node NodeType.Root
                        [Some (DefBlockSyntax
                                 (token DefSyntaxToken.BracedBlock "{}")
                                 [] None None)]) |},
           ["Unnamed block encountered: {}"])
  /\ parse_getString true "{}" = Ok "{}".
Proof. repeat split; reflexivity. Qed.

(** C4: on the text [abc], an identifier that no block follows, the parser
    appends a null pointer to the root, and rendering the tree dereferences
    it. *)
Theorem trailing_identifier_appends_null (NDEBUG : bool) :
  parse_string NDEBUG "abc"
  = Ok ({| _root := Some (Node NodeType.Root [None]) |}, [])
  /\ parse_getString NDEBUG "abc" = Fail NullDereference.
Proof. destruct NDEBUG; split; reflexivity. Qed.

(** C8: the text [a{{b}}] parses into one DeclBlock whose block token is
    [{{b}}], closed at its matching brace; the content between the outer
    braces is [{b}], and [getBlockContents] returns [b]. *)
Theorem getBlockContents_strips_every_brace (NDEBUG : bool) :
  let block :=
    DefBlockSyntax (token DefSyntaxToken.BracedBlock "{{b}}")
      [Some (DefNameSyntax (token DefSyntaxToken.Token "a"))]
      None (Some (DefNameSyntax (token DefSyntaxToken.Token "a"))) in
  parse_string NDEBUG "a{{b}}"
  = Ok ({| _root := Some (Node NodeType.Root [Some block]) |}, [])
  /\ getBlockContents block = Ok "b".
Proof. destruct NDEBUG; split; reflexivity. Qed.

(** ** The registry *)

(** C10: [registerDeclType] on a type name that is bound ends in the
    "already registered" fault, whichever creator is passed, and leaves the
    manager as it was. *)
Theorem registerDeclType_already_registered (typeName : string)
    (bound passed : decl.Creator) (this : decl.DeclarationManager) :
  decl._creatorsByTypename this !! typeName = Some bound ->
  decl.registerDeclType typeName passed this = (Fail AlreadyRegistered, this).
Proof. intros H. unfold decl.registerDeclType. rewrite H. reflexivity. Qed.

Lemma registerDeclType_already_registered_witness :
  let registered :=
    snd (decl.registerDeclType "testdecl" creator decl.initial) in
  decl.registerDeclType "testdecl" creator decl.initial = (Ok tt, registered)
  /\ decl.registerDeclType "testdecl" creator registered
     = (Fail AlreadyRegistered, registered)
  /\ decl.registerDeclType "testdecl" creator2 registered
     = (Fail AlreadyRegistered, registered).
Proof.
  split; [reflexivity|].
  split;
    apply (registerDeclType_already_registered "testdecl" creator);
    reflexivity.
Defined.

(** ** What the round trip rests on *)












Lemma leafy_app (hs1 hs2 : list Ptr) :
  leafy (hs1 ++ hs2) = leafy hs1 && leafy hs2.
Proof. apply forallb_app. Qed.

(** Turning the name node into a type node of the same token changes
    neither the tokens of the header nor their order. *)
Lemma tokens_of_header_retype (hs : list Ptr) :
  forall (i : nat) (tok : DefSyntaxToken),
    hs !! i = Some (Some (DefNameSyntax tok)) ->
    tokens_of_header (<[i := Some (DefTypeSyntax tok)]> hs)
    = tokens_of_header hs
    /\ leafy (<[i := Some (DefTypeSyntax tok)]> hs) = leafy hs.
Proof.
  induction hs as [|p hs IH]; intros i tok Hi; [discriminate|].
  destruct i as [|i].
  - simpl in Hi. injection Hi as ->. split; reflexivity.
  - simpl in Hi. destruct (IH i tok Hi) as [IH1 IH2].
    split.
    + simpl. rewrite IH1. reflexivity.
    + unfold leafy in *. simpl. rewrite IH2. reflexivity.
Qed.

Lemma values_app (l1 l2 : list DefSyntaxToken) :
  values (l1 ++ l2) = values l1 +:+ values l2.
Proof.
  induction l1 as [|t l1 IH]; [reflexivity|].
  simpl. rewrite IH, append_assoc. reflexivity.
Qed.

Lemma each_headerNode_leafy (hs : list Ptr) :
  forall output,
    leafy hs = true ->
    each_headerNode getString hs output
    = Ok (output +:+ values (tokens_of_header hs)).
Proof.
  induction hs as [|[n|] hs IH]; intros output Hleafy.
  - simpl. rewrite append_nil_r. reflexivity.
  - unfold leafy in Hleafy. simpl in Hleafy.
    apply andb_prop in Hleafy as [Hn Hhs].
    assert (Hn' : exists tok, leaf_token n = Some tok
                              /\ getString n = Ok (DefSyntaxToken.value tok)).
    { destruct n; try discriminate; eexists; split; reflexivity. }
    destruct Hn' as (tok & Hleaf & Hstr).
    cbn [each_headerNode tokens_of_header]. rewrite Hstr, Hleaf.
    cbn [mbind Res_bind]. fold (each_headerNode getString).
    rewrite (IH _ Hhs). cbn [values]. rewrite append_assoc. reflexivity.
  - unfold leafy in Hleafy. simpl in Hleafy.
    cbn [each_headerNode tokens_of_header]. fold (each_headerNode getString).
    apply IH. exact Hleafy.
Qed.

Lemma getString_block (tok : DefSyntaxToken) (hs : list Ptr) (ty nm : Ptr) :
  leafy hs = true ->
  getString (DefBlockSyntax tok hs ty nm)
  = Ok (values (tokens_of_header hs) +:+ DefSyntaxToken.value tok).
Proof.
  intros Hleafy. cbn [getString]. rewrite each_headerNode_leafy by exact Hleafy.
  reflexivity.
Qed.








Lemma appendToRoot_root (tree : DefSyntaxTree) k cs (child : Ptr) :
  _root tree = Some (Node k cs) ->
  appendToRoot tree child = Ok {| _root := Some (Node k (cs ++ [child])) |}.
Proof. unfold appendToRoot, getRoot. intros ->. reflexivity. Qed.



(** A token of kind [Token] starts with a slash only where the tokeniser
    function slipped. *)
Lemma slash_identifier_slipped NDEBUG (next next' : string)
    (tok : DefSyntaxToken) :
  DefBlockSyntaxTokeniserFunc NDEBUG next = Ok (true, next', tok) ->
  slash_identifier tok = true ->
  slipped next (DefBlockSyntaxTokeniserFunc NDEBUG next).
Proof.
  intros Hrun Hslash.
  assert (Hfirst : forall st openedBlocks k ch rest,
             st <> State.Searching ->
             DefBlockSyntaxTokeniserFunc_loop NDEBUG st openedBlocks
               (DefSyntaxToken.append
                  (DefSyntaxToken.set_type DefSyntaxToken.clear k) ch) rest
             = Ok (true, next', tok) ->
             k = DefSyntaxToken.Token /\ Ascii.eqb ch Slash = true).
  { intros st openedBlocks k ch rest Hst H.
    destruct (loop_cuts NDEBUG rest st openedBlocks
                (DefSyntaxToken.append
                   (DefSyntaxToken.set_type DefSyntaxToken.clear k) ch)
                Hst (started_append _ _)) as (consumed & nx & Hcut & _).
    rewrite H in Hcut. injection Hcut as _ ->.
    unfold slash_identifier in Hslash.
    apply andb_prop in Hslash as [Hk Hlead].
    apply bool_decide_eq_true_1 in Hk. split; [exact Hk|exact Hlead]. }
  destruct next as [|ch rest]; [discriminate|].
  unfold DefBlockSyntaxTokeniserFunc in Hrun |- *.
  cbn [DefBlockSyntaxTokeniserFunc_loop] in Hrun |- *.
  destruct (IsWhitespace ch) eqn:Hws.
  { apply Hfirst in Hrun as [? _]; discriminate. }
  destruct (Ascii.eqb ch OpeningBrace) eqn:Hopen.
  { apply Hfirst in Hrun as [? _]; discriminate. }
  destruct (Ascii.eqb ch Slash) eqn:Hch.
  2:{ apply Hfirst in Hrun as [_ ?]; [congruence|discriminate]. }
  apply Ascii.eqb_eq in Hch. subst ch.
  destruct rest as [|c rest]; [discriminate|].
  destruct (Ascii.eqb c Asterisk) eqn:Hstar.
  { destruct (loop_cuts NDEBUG rest State.BlockComment 0
                (DefSyntaxToken.append
                   (DefSyntaxToken.set_type
                      (DefSyntaxToken.append DefSyntaxToken.clear Slash)
                      DefSyntaxToken.BlockComment) Asterisk))
      as (consumed & nx & Hcut & _); [discriminate|apply started_append|].
    rewrite Hrun in Hcut. injection Hcut as _ ->. discriminate. }
  destruct (Ascii.eqb c Slash) eqn:Hc.
  { destruct (loop_cuts NDEBUG rest State.EolComment 0
                (DefSyntaxToken.append
                   (DefSyntaxToken.set_type
                      (DefSyntaxToken.append DefSyntaxToken.clear Slash)
                      DefSyntaxToken.EolComment) Slash))
      as (consumed & nx & Hcut & _); [discriminate|apply started_append|].
    rewrite Hrun in Hcut. injection Hcut as _ ->. discriminate. }
  destruct (loop_cuts NDEBUG rest State.Token 0
              (DefSyntaxToken.append
                 (DefSyntaxToken.set_type
                    (DefSyntaxToken.append DefSyntaxToken.clear Slash)
                    DefSyntaxToken.Token) Slash))
    as (consumed & nx & Hcut & Hsplit);
    [discriminate|apply started_append|].
  exists c, rest, consumed, nx.
  repeat split; [exact Hstar|exact Hc|exact Hcut|exact Hsplit].
Qed.




(** ** Blocks that do not come *)

(** In a build that checks assertions, a turn of [parse] on a braced block
    token stops at the assertion on the name index; in a build that does
    not, it appends the block without name and type and goes on. *)
Lemma anonymous_block_turn (it : Iterator) (log : list string)
    (tree : DefSyntaxTree) (fuel : nat) :
  _hasValidToken it = true ->
  DefSyntaxToken.type (_token it) = DefSyntaxToken.BracedBlock ->
  parse_loop false (S fuel) tree (with_iterator it log)
  = Fail (AssertionFailed "nameIndex >= 0")
  /\ parse_loop true (S fuel) tree (with_iterator it log)
     = (tree' ← appendToRoot tree
                  (Some (DefBlockSyntax (_token it) [] None None));
        this ← increment true
                 (with_iterator it
                    (log ++ ["Unnamed block encountered: "
                             +:+ DefSyntaxToken.value (_token it)]));
        parse_loop true fuel tree' this).
Proof.
  intros Hvalid Hk. split.
  - cbn [parse_loop]. unfold isExhausted. cbn [_tokIter with_iterator].
    rewrite Hvalid, Hk. cbn [negb]. unfold make_DefBlockSyntax, assert.
    rewrite Hk. reflexivity.
  - cbn [parse_loop]. unfold isExhausted. cbn [_tokIter with_iterator].
    rewrite Hvalid, Hk. reflexivity.
Qed.

Lemma header_state_app (hs : list Ptr) (nameIndex typeIndex : Z) (p : Ptr) :
  header_state hs nameIndex typeIndex ->
  header_state (hs ++ [p]) nameIndex typeIndex.
Proof.
  intros [H|[(Ht & Hn & tok & Hlookup & Hk)|H]];
    [left; exact H| |right; right; exact H].
  right. left. split; [exact Ht|]. split; [exact Hn|]. exists tok.
  split; [|exact Hk].
  rewrite lookup_app_l; [exact Hlookup|].
  apply lookup_lt_Some in Hlookup. exact Hlookup.
Qed.

(** When the tokens run out before a braced block, the loop of [parseBlock]
    ends with the null pointer it started with. *)
Lemma parseBlock_loop_no_block NDEBUG (toks : list DefSyntaxToken) :
  forall it it' log fuel hs nameIndex typeIndex,
    reads NDEBUG it toks it' ->
    _hasValidToken it' = false ->
    Forall no_block toks ->
    header_state hs nameIndex typeIndex ->
    Z.of_nat (length hs) + Z.of_nat (length toks) < 2 ^ 31 ->
    exists log',
      parseBlock_loop NDEBUG (length toks + S fuel) hs None nameIndex
        typeIndex (with_iterator it log)
      = Ok (None, with_iterator it' log').
Proof.
  induction toks as [|tok toks IH];
    intros it it' log fuel hs n t Hreads Hend Hnoblock Hstate Hbound.
  - inversion Hreads; subst it'. exists log.
    cbn [parseBlock_loop Nat.add length is_null andb].
    unfold isExhausted. cbn [_tokIter with_iterator]. rewrite Hend.
    reflexivity.
  - apply reads_cons_inv in Hreads as (-> & Hvalid & it1 & Hadv & Hreads).
    apply Forall_cons in Hnoblock as [Hnb Hnoblock]. unfold no_block in Hnb.
    cbn [length] in Hbound.
    change (length (_token it :: toks) + S fuel)%nat
      with (S (length toks + S fuel)).
    destruct (DefSyntaxToken.type (_token it)) eqn:Hk; [|..|].
    + (* no kind: the token is passed over *)
      cbn [parseBlock_loop is_null andb]. unfold isExhausted.
      cbn [_tokIter with_iterator]. rewrite Hvalid. cbn [negb].
      rewrite (increment_with_iterator _ _ _ _ Hadv). cbn [mbind Res_bind].
      rewrite Hk. apply (IH _ _ _ _ _ _ _ Hreads Hend Hnoblock Hstate). lia.
    + rewrite (turn_trivia NDEBUG it it1 log Hvalid Hadv)
        by (unfold is_trivia; rewrite Hk; reflexivity).
      apply (IH _ _ _ _ _ _ _ Hreads Hend Hnoblock).
      * apply header_state_app. exact Hstate.
      * rewrite length_app. cbn [length]. lia.
    + congruence.
    + (* an identifier *)
      destruct Hstate as [[-> ->]|[(-> & Hn & old & Hlookup & Hold)|[Hn Ht]]].
      * rewrite (turn_first_identifier NDEBUG it it1 log Hvalid Hadv)
          by exact Hk.
        rewrite static_cast_int_small by lia.
        apply (IH _ _ _ _ _ _ _ Hreads Hend Hnoblock).
        -- right. left. split; [reflexivity|]. split; [lia|].
           exists (_token it). split; [|exact Hk].
           rewrite Nat2Z.id. apply list_lookup_middle. reflexivity.
        -- rewrite length_app. cbn [length]. lia.
      * rewrite (turn_second_identifier NDEBUG it it1 log Hvalid Hadv _ _ _
                   old Hn Hlookup Hold Hk).
        rewrite static_cast_int_small by lia.
        apply (IH _ _ _ _ _ _ _ Hreads Hend Hnoblock).
        -- right. right. split; lia.
        -- rewrite length_app, length_insert. cbn [length]. lia.
      * rewrite (turn_third_identifier NDEBUG it it1 log Hvalid Hadv _ _ _ _
                   Hn Ht Hk).
        apply (IH _ _ _ _ _ _ _ Hreads Hend Hnoblock).
        -- right. right. split; assumption.
        -- lia.
    + rewrite (turn_trivia NDEBUG it it1 log Hvalid Hadv)
        by (unfold is_trivia; rewrite Hk; reflexivity).
      apply (IH _ _ _ _ _ _ _ Hreads Hend Hnoblock).
      * apply header_state_app. exact Hstate.
      * rewrite length_app. cbn [length]. lia.
    + rewrite (turn_trivia NDEBUG it it1 log Hvalid Hadv)
        by (unfold is_trivia; rewrite Hk; reflexivity).
      apply (IH _ _ _ _ _ _ _ Hreads Hend Hnoblock).
      * apply header_state_app. exact Hstate.
      * rewrite length_app. cbn [length]. lia.
Qed.

(** Whenever the tokens from an identifier to the end of the text hold no
    braced block, [parseBlock] returns the null pointer, and [parse] appends
    it to the root and returns. *)
Lemma trailing_header_is_null NDEBUG (it it' : Iterator) (log : list string)
    (toks : list DefSyntaxToken) (tree : DefSyntaxTree) :
  reads NDEBUG it toks it' ->
  _hasValidToken it' = false ->
  Forall no_block toks ->
  Z.of_nat (length toks) < 2 ^ 31 ->
  exists log',
    parseBlock NDEBUG (with_iterator it log)
    = Ok (None, with_iterator it' log')
    /\ (_hasValidToken it = true ->
        DefSyntaxToken.type (_token it) = DefSyntaxToken.Token ->
        parse_from NDEBUG tree (with_iterator it log)
        = (tree' ← appendToRoot tree None;
           Ok (tree', with_iterator it' log'))).
Proof.
  intros Hreads Hend Hnoblock Hbound.
  pose proof (reads_length _ _ _ _ Hreads) as Hlen.
  destruct (parseBlock_loop_no_block NDEBUG toks it it' log
              (S (String.length (_cur it)) - length toks) [] (-1) (-1)
              Hreads Hend Hnoblock) as (log' & Hrun).
  { left. split; reflexivity. }
  { cbn [length]. lia. }
  replace (length toks + S (S (String.length (_cur it)) - length toks))%nat
    with (enough it) in Hrun by (unfold enough; lia).
  exists log'. split; [exact Hrun|].
  intros Hvalid Hk. unfold parse_from, enough.
  cbn [_tokIter with_iterator].
  remember (S (String.length (_cur it))) as fuel eqn:Hfuel.
  cbn [parse_loop]. unfold isExhausted. cbn [_tokIter with_iterator].
  rewrite Hvalid, Hk. cbn [negb].
  unfold parseBlock. cbn [_tokIter with_iterator]. unfold enough.
  rewrite <- Hfuel. unfold enough in Hrun. rewrite <- Hfuel in Hrun.
  rewrite Hrun. cbn [mbind Res_bind].
  destruct (appendToRoot tree None) as [tree'|]; [|reflexivity].
  cbn [mbind Res_bind]. subst fuel. cbn [parse_loop].
  unfold isExhausted. cbn [_tokIter with_iterator]. rewrite Hend.
  reflexivity.
Qed.

(** ** Sample texts *)

(** The scenario of section 8 of the design document. *)
Example material_scenario (NDEBUG : bool) :
  let block :=
    DefBlockSyntax
      (token DefSyntaxToken.BracedBlock "{
  diffusemap textures/x
}")
      [Some (DefTypeSyntax (token DefSyntaxToken.Token "material"));
       Some (DefWhitespaceSyntax (token DefSyntaxToken.Whitespace " "));
       Some (DefNameSyntax (token DefSyntaxToken.Token "textures/x"));
       Some (DefWhitespaceSyntax (token DefSyntaxToken.Whitespace "
"))]
      (Some (DefTypeSyntax (token DefSyntaxToken.Token "material")))
      (Some (DefNameSyntax (token DefSyntaxToken.Token "textures/x"))) in
  parse_string NDEBUG "// header
material textures/x
{
  diffusemap textures/x
}
"
  = Ok ({| _root :=
             Some (Node NodeType.Root
                     [Some (DefCommentSyntax
                              (token DefSyntaxToken.EolComment "// header"));
                      Some (DefWhitespaceSyntax
                              (token DefSyntaxToken.Whitespace "
"));
                      Some block;
                      Some (DefWhitespaceSyntax
                              (token DefSyntaxToken.Whitespace "
"))]) |}, [])
  /\ getBlockContents block = Ok "
  diffusemap textures/x
".
Proof. destruct NDEBUG; split; reflexivity. Qed.

(** A closing brace outside a block starts a bare token, which keeps it. *)
Example stray_closing_brace (NDEBUG : bool) :
  DefBlockSyntaxTokeniserFunc NDEBUG "}a b"
  = Ok (true, " b", token DefSyntaxToken.Token "}a").
Proof. destruct NDEBUG; reflexivity. Qed.

(** A slash that opens no comment, as the last character of a text: the
    parser ends where the tokeniser function does. *)
Example final_slash_in_a_text (NDEBUG : bool) :
  parse_string NDEBUG "a {} /" = Fail CursorPastEnd.
Proof. destruct NDEBUG; reflexivity. Qed.

(** Unclosed comments and blocks end with the text. *)
Example unclosed_tokens (NDEBUG : bool) :
  DefBlockSyntaxTokeniserFunc NDEBUG "/* abc *"
  = Ok (true, EmptyString, token DefSyntaxToken.BlockComment "/* abc *")
  /\ DefBlockSyntaxTokeniserFunc NDEBUG "{ a { b }"
     = Ok (true, EmptyString, token DefSyntaxToken.BracedBlock "{ a { b }").
Proof. destruct NDEBUG; split; reflexivity. Qed.

(** * Further properties of the tokeniser function *)

(** A call that does not start on a lone slash loses nothing: the token
    text followed by the text under the moved cursor is the text the call
    started on. *)
Theorem tokeniser_call_is_lossless (NDEBUG : bool) (next next' : string)
    (found : bool) (tok : DefSyntaxToken) :
  begins_with_lone_slash next = false ->
  DefBlockSyntaxTokeniserFunc NDEBUG next = Ok (found, next', tok) ->
  next = DefSyntaxToken.value tok +:+ next'.
Proof.
  intros Hslash Hrun.
  destruct (tokeniser_cases NDEBUG next) as [[Hnext H]|[[_ H]|[H|H]]];
    rewrite Hrun in H.
  - injection H as _ -> ->. exact Hnext.
  - discriminate.
  - destruct H as (c & rest & consumed & nx & -> & Hstar & Hc & _).
    cbn [begins_with_lone_slash] in Hslash.
    change (Ascii.eqb Slash Slash) with true in Hslash.
    rewrite Hstar, Hc in Hslash. discriminate.
  - destruct H as (tok' & nx & H & Hnext & _). injection H as _ -> ->.
    exact Hnext.
Qed.

Lemma tokeniser_call_is_lossless_witness :
  "textures/x {}"
  = DefSyntaxToken.value (token DefSyntaxToken.Token "textures/x") +:+ " {}".
Proof.
  apply (tokeniser_call_is_lossless false "textures/x {}" " {}" true
           (token DefSyntaxToken.Token "textures/x")); reflexivity.
Defined.

Lemma whitespace_state_run NDEBUG (s : string) :
  forall openedBlocks tok,
    started tok ->
    DefBlockSyntaxTokeniserFunc_loop NDEBUG State.Whitespace openedBlocks
      tok s
    = Ok (true, snd (span IsWhitespace s),
          append_all tok (fst (span IsWhitespace s))).
Proof.
  induction s as [|c rest IH]; intros openedBlocks tok Htok.
  - simpl. unfold started in Htok. rewrite Htok, append_all_nil. reflexivity.
  - cbn [DefBlockSyntaxTokeniserFunc_loop span].
    destruct (IsWhitespace c) eqn:Hc.
    + rewrite IH by apply started_append.
      destruct (span IsWhitespace rest) as [run rest'].
      cbn [fst snd]. rewrite append_all_cons. reflexivity.
    + cbn [fst snd]. rewrite append_all_nil. reflexivity.
Qed.

Lemma span_spec (p : ascii -> bool) (s : string) :
  s = fst (span p s) +:+ snd (span p s)
  /\ all_chars p (fst (span p s)) = true
  /\ stops_at (fun c => negb (p c)) (snd (span p s)) = true.
Proof.
  induction s as [|c rest (IH1 & IH2 & IH3)]; [repeat split|].
  cbn [span]. destruct (p c) eqn:Hc.
  - destruct (span p rest) as [run rest']. cbn [fst snd] in *.
    split; [rewrite append_cons, <- IH1; reflexivity|].
    split; [unfold all_chars in *; cbn; rewrite Hc, IH2; reflexivity|].
    exact IH3.
  - cbn [fst snd]. split; [reflexivity|]. split; [reflexivity|].
    cbn [stops_at]. rewrite Hc. reflexivity.
Qed.

(** A call that starts on a whitespace character returns a Whitespace token
    that holds the whitespace up to the first character that is none, and
    leaves the cursor on that character (or at the end). *)
Theorem whitespace_token_is_maximal (NDEBUG : bool) (c : ascii)
    (rest : string) :
  IsWhitespace c = true ->
  exists run next',
    DefBlockSyntaxTokeniserFunc NDEBUG (String c rest)
    = Ok (true, next', token DefSyntaxToken.Whitespace run)
    /\ String c rest = run +:+ next'
    /\ all_chars IsWhitespace run = true
    /\ stops_at (fun c' => negb (IsWhitespace c')) next' = true.
Proof.
  intros Hc.
  exists (fst (span IsWhitespace (String c rest))),
    (snd (span IsWhitespace (String c rest))).
  split; [|apply span_spec].
  unfold DefBlockSyntaxTokeniserFunc.
  cbn [DefBlockSyntaxTokeniserFunc_loop span]. rewrite Hc.
  rewrite whitespace_state_run by apply started_append.
  destruct (span IsWhitespace rest) as [run rest']. reflexivity.
Qed.

Lemma whitespace_token_is_maximal_witness :
  exists run next',
    DefBlockSyntaxTokeniserFunc false (String Space (String Tab "a b"))
    = Ok (true, next', token DefSyntaxToken.Whitespace run)
    /\ String Space (String Tab "a b") = run +:+ next'
    /\ all_chars IsWhitespace run = true
    /\ stops_at (fun c' => negb (IsWhitespace c')) next' = true.
Proof.
  apply (whitespace_token_is_maximal false Space (String Tab "a b")).
  reflexivity.
Defined.

Lemma eol_comment_state_run NDEBUG (line : string) :
  forall openedBlocks tok rest,
    all_chars (fun c => negb (is_line_end c)) line = true ->
    stops_at is_line_end rest = true ->
    started tok ->
    DefBlockSyntaxTokeniserFunc_loop NDEBUG State.EolComment openedBlocks
      tok (line +:+ rest)
    = Ok (true, rest, append_all tok line).
Proof.
  induction line as [|c line IH]; intros openedBlocks tok rest Hline Hrest Htok.
  - rewrite append_nil_l, append_all_nil.
    destruct rest as [|c rest].
    + simpl. unfold started in Htok. rewrite Htok. reflexivity.
    + cbn [stops_at] in Hrest. unfold is_line_end in Hrest.
      cbn [DefBlockSyntaxTokeniserFunc_loop]. rewrite Hrest. reflexivity.
  - unfold all_chars in Hline. cbn in Hline.
    apply andb_prop in Hline as [Hc Hline]. apply negb_true_iff in Hc.
    unfold is_line_end in Hc.
    rewrite append_cons. cbn [DefBlockSyntaxTokeniserFunc_loop]. rewrite Hc.
    rewrite IH; [|exact Hline|exact Hrest|apply started_append].
    rewrite append_all_cons. reflexivity.
Qed.

(** Two slashes open an end-of-line comment: the token holds the slashes
    and the line up to, and without, its carriage return or line feed, on
    which the cursor is left. *)
Theorem eol_comment_runs_to_line_end (NDEBUG : bool) (line rest : string) :
  all_chars (fun c => negb (is_line_end c)) line = true ->
  stops_at is_line_end rest = true ->
  DefBlockSyntaxTokeniserFunc NDEBUG ("//" +:+ line +:+ rest)
  = Ok (true, rest, token DefSyntaxToken.EolComment ("//" +:+ line)).
Proof.
  intros Hline Hrest. unfold DefBlockSyntaxTokeniserFunc.
  change ("//" +:+ line +:+ rest)
    with (String Slash (String Slash (line +:+ rest))).
  cbn [DefBlockSyntaxTokeniserFunc_loop].
  change (IsWhitespace Slash) with false.
  change (Ascii.eqb Slash OpeningBrace) with false.
  change (Ascii.eqb Slash Slash) with true.
  change (Ascii.eqb Slash Asterisk) with false. cbv iota.
  rewrite eol_comment_state_run;
    [reflexivity|exact Hline|exact Hrest|apply started_append].
Qed.

Lemma eol_comment_runs_to_line_end_witness :
  DefBlockSyntaxTokeniserFunc false
    ("//" +:+ " header { /* " +:+ String LF "material")
  = Ok (true, String LF "material",
        token DefSyntaxToken.EolComment ("//" +:+ " header { /* ")).
Proof.
  apply (eol_comment_runs_to_line_end false " header { /* "
           (String LF "material")); reflexivity.
Defined.

Lemma block_comment_state_run NDEBUG (body : string) :
  forall openedBlocks tok rest,
    has_comment_end body = false ->
    DefBlockSyntaxTokeniserFunc_loop NDEBUG State.BlockComment openedBlocks
      tok (body +:+ "*/" +:+ rest)
    = Ok (true, rest, append_all tok (body +:+ "*/")).
Proof.
  induction body as [|c body IH]; intros openedBlocks tok rest Hbody.
  - rewrite !append_nil_l.
    change ("*/" +:+ rest) with (String Asterisk (String Slash rest)).
    cbn [DefBlockSyntaxTokeniserFunc_loop].
    change (Ascii.eqb Asterisk Asterisk) with true.
    change (Ascii.eqb Slash Slash) with true. cbv iota.
    rewrite <- !append_all_cons, append_all_nil. reflexivity.
  - rewrite !append_cons.
    assert (Hbody' : has_comment_end body = false).
    { destruct body as [|c' body']; [reflexivity|].
      cbn [has_comment_end] in Hbody.
      apply orb_false_elim in Hbody as [_ Hbody]. exact Hbody. }
    assert (Hgo : DefBlockSyntaxTokeniserFunc_loop NDEBUG State.BlockComment
                    openedBlocks (DefSyntaxToken.append tok c)
                    (body +:+ "*/" +:+ rest)
                  = Ok (true, rest,
                        append_all tok (String c (body +:+ "*/")))).
    { rewrite IH by exact Hbody'. rewrite append_all_cons. reflexivity. }
    cbn [DefBlockSyntaxTokeniserFunc_loop].
    destruct (Ascii.eqb c Asterisk) eqn:Hstar; [|exact Hgo].
    destruct body as [|c' body'].
    + rewrite append_nil_l in *.
      change ("*/" +:+ rest) with (String Asterisk (String Slash rest)) in *.
      change (Ascii.eqb Asterisk Slash) with false. cbv iota. exact Hgo.
    + rewrite append_cons in *.
      cbn [has_comment_end] in Hbody. rewrite Hstar in Hbody.
      apply orb_false_elim in Hbody as [Hc' _]. cbn [andb] in Hc'.
      rewrite Hc'. exact Hgo.
Qed.

(** A slash and an asterisk open a block comment: the token runs through
    the first asterisk-slash after them, inclusive, and the cursor is left
    behind it. *)
Theorem block_comment_runs_to_its_end (NDEBUG : bool) (body rest : string) :
  has_comment_end body = false ->
  DefBlockSyntaxTokeniserFunc NDEBUG ("/*" +:+ body +:+ "*/" +:+ rest)
  = Ok (true, rest,
        token DefSyntaxToken.BlockComment ("/*" +:+ body +:+ "*/")).
Proof.
  intros Hbody. unfold DefBlockSyntaxTokeniserFunc.
  change ("/*" +:+ body +:+ "*/" +:+ rest)
    with (String Slash (String Asterisk (body +:+ "*/" +:+ rest))).
  cbn [DefBlockSyntaxTokeniserFunc_loop].
  change (IsWhitespace Slash) with false.
  change (Ascii.eqb Slash OpeningBrace) with false.
  change (Ascii.eqb Slash Slash) with true.
  change (Ascii.eqb Asterisk Asterisk) with true. cbv iota.
  rewrite block_comment_state_run by exact Hbody. reflexivity.
Qed.

Lemma block_comment_runs_to_its_end_witness :
  DefBlockSyntaxTokeniserFunc false ("/*" +:+ " a { * / **" +:+ "*/" +:+ " b")
  = Ok (true, " b",
        token DefSyntaxToken.BlockComment ("/*" +:+ " a { * / **" +:+ "*/")).
Proof.
  apply (block_comment_runs_to_its_end false " a { * / **" " b").
  reflexivity.
Defined.

Lemma size_t_incr_small (d : Z) :
  0 <= d -> d + 1 < 2 ^ 64 -> size_t_incr d = d + 1.
Proof.
  intros H0 H1. unfold size_t_incr, size_t_modulus. apply Z.mod_small. lia.
Qed.

Lemma size_t_decr_small (d : Z) :
  1 <= d -> d < 2 ^ 64 -> size_t_decr d = d - 1.
Proof.
  intros H0 H1. unfold size_t_decr, size_t_modulus. apply Z.mod_small. lia.
Qed.

Lemma block_body_run NDEBUG (depth : nat) (s : string) :
  block_body depth s ->
  forall (openedBlocks : Z) (tok : DefSyntaxToken) (rest : string),
    1 <= openedBlocks ->
    openedBlocks + Z.of_nat depth < 2 ^ 64 ->
    DefBlockSyntaxTokeniserFunc_loop NDEBUG State.BracedBlock openedBlocks
      tok (s +:+ rest)
    = DefBlockSyntaxTokeniserFunc_loop NDEBUG State.BracedBlock openedBlocks
        (append_all tok s) rest.
Proof.
  induction 1 as [depth|depth c s Hopen Hclose Hquote Hs IH
                  |depth quoted s Hquoted Hs IH
                  |depth inner s Hinner IHinner Hs IHs];
    intros openedBlocks tok rest Hpos Hbound.
  - rewrite append_nil_l, append_all_nil. reflexivity.
  - rewrite append_cons. cbn [DefBlockSyntaxTokeniserFunc_loop].
    rewrite Hopen, Hclose, Hquote.
    rewrite IH by assumption. rewrite append_all_cons. reflexivity.
  - rewrite append_cons, append_assoc, append_cons.
    cbn [DefBlockSyntaxTokeniserFunc_loop].
    change (Ascii.eqb DoubleQuote OpeningBrace) with false.
    change (Ascii.eqb DoubleQuote ClosingBrace) with false.
    change (Ascii.eqb DoubleQuote DoubleQuote) with true. cbv iota.
    rewrite quoted_string_is_skipped by exact Hquoted.
    rewrite IH by assumption.
    rewrite (append_all_append (DefSyntaxToken.append tok DoubleQuote)
               (quoted +:+ String DoubleQuote EmptyString) s).
    rewrite append_all_cons.
    rewrite append_assoc, append_cons, append_nil_l. reflexivity.
  - rewrite append_cons, append_assoc, append_cons.
    cbn [DefBlockSyntaxTokeniserFunc_loop].
    change (Ascii.eqb OpeningBrace OpeningBrace) with true. cbv iota.
    rewrite size_t_incr_small by lia.
    rewrite IHinner by lia.
    cbn [DefBlockSyntaxTokeniserFunc_loop].
    change (Ascii.eqb ClosingBrace OpeningBrace) with false.
    change (Ascii.eqb ClosingBrace ClosingBrace) with true. cbv iota.
    rewrite size_t_decr_small by lia.
    replace (openedBlocks + 1 - 1) with openedBlocks by lia.
    destruct (openedBlocks =? 0) eqn:Hzero; [lia|].
    rewrite IHs by (try assumption; lia).
    rewrite append_all_cons.
    rewrite (append_all_append (DefSyntaxToken.append tok OpeningBrace)
               inner (String ClosingBrace s)).
    rewrite append_all_cons. reflexivity.
Qed.

(** An opening brace opens a braced block token that ends at the closing
    brace that matches it: the blocks nested inside and the quoted strings,
    with the braces they hold, are passed over; the cursor is left behind
    the closing brace. *)
Theorem braced_block_ends_at_matching_brace (NDEBUG : bool) (depth : nat)
    (body rest : string) :
  block_body depth body ->
  Z.of_nat depth + 1 < 2 ^ 64 ->
  DefBlockSyntaxTokeniserFunc NDEBUG
    (String OpeningBrace (body +:+ String ClosingBrace rest))
  = Ok (true, rest,
        token DefSyntaxToken.BracedBlock
          (String OpeningBrace (body +:+ String ClosingBrace EmptyString))).
Proof.
  intros Hbody Hdepth. unfold DefBlockSyntaxTokeniserFunc.
  cbn [DefBlockSyntaxTokeniserFunc_loop].
  change (IsWhitespace OpeningBrace) with false.
  change (Ascii.eqb OpeningBrace OpeningBrace) with true. cbv iota.
  rewrite (block_body_run NDEBUG depth body Hbody) by lia.
  cbn [DefBlockSyntaxTokeniserFunc_loop].
  change (Ascii.eqb ClosingBrace OpeningBrace) with false.
  change (Ascii.eqb ClosingBrace ClosingBrace) with true.
  change (size_t_decr 1 =? 0) with true. cbv iota.
  rewrite <- (append_all_nil
                (DefSyntaxToken.append
                   (append_all
                      (DefSyntaxToken.append
                         (DefSyntaxToken.set_type DefSyntaxToken.clear
                            DefSyntaxToken.BracedBlock) OpeningBrace) body)
                   ClosingBrace)).
  rewrite append_all_cons.
  rewrite (append_all_append
             (DefSyntaxToken.append
                (DefSyntaxToken.set_type DefSyntaxToken.clear
                   DefSyntaxToken.BracedBlock) OpeningBrace)
             body (String ClosingBrace EmptyString)).
  rewrite append_all_cons. reflexivity.
Qed.

Lemma braced_block_ends_at_matching_brace_witness :
  DefBlockSyntaxTokeniserFunc false
    (String OpeningBrace
       ((" a { b } " +:+ String DoubleQuote ("}" +:+ String DoubleQuote " "))
        +:+ String ClosingBrace " next {}"))
  = Ok (true, " next {}",
        token DefSyntaxToken.BracedBlock
          (String OpeningBrace
             ((" a { b } "
               +:+ String DoubleQuote ("}" +:+ String DoubleQuote " "))
              +:+ String ClosingBrace EmptyString))).
Proof.
  apply (braced_block_ends_at_matching_brace false 1).
  - repeat first
      [ apply body_end
      | apply (body_nested 0 " b ")
      | apply (body_quoted 1 "}"); [reflexivity|]
      | apply body_char; [reflexivity|reflexivity|reflexivity|] ].
  - reflexivity.
Defined.

(** * Further properties of the parser *)

Lemma header_slots_app (hs : list Ptr) (nameIndex typeIndex : Z) (p : Ptr) :
  header_slots hs nameIndex typeIndex ->
  header_slots (hs ++ [p]) nameIndex typeIndex.
Proof.
  intros [H|[(Ht & Hn & nt & Hname & Hk)|(Hlt & tt & nt & Htype & Hkt & Hname & Hkn)]].
  - left. exact H.
  - right. left. split; [exact Ht|]. split; [exact Hn|]. exists nt.
    split; [|exact Hk].
    rewrite lookup_app_l; [exact Hname|].
    apply lookup_lt_Some in Hname. exact Hname.
  - right. right. split; [exact Hlt|]. exists tt, nt.
    pose proof (lookup_lt_Some _ _ _ Htype).
    pose proof (lookup_lt_Some _ _ _ Hname).
    rewrite !lookup_app_l by assumption. auto.
Qed.

Lemma turn_nothing NDEBUG it it1 log fuel hs nameIndex typeIndex :
  _hasValidToken it = true ->
  Iterator_advance NDEBUG it = Ok it1 ->
  DefSyntaxToken.type (_token it) = DefSyntaxToken.Nothing ->
  parseBlock_loop NDEBUG (S fuel) hs None nameIndex typeIndex
    (with_iterator it log)
  = parseBlock_loop NDEBUG fuel hs None nameIndex typeIndex
      (with_iterator it1 log).
Proof.
  intros Hvalid Hadv Hk. cbn [parseBlock_loop is_null andb].
  unfold isExhausted. cbn [_tokIter with_iterator]. rewrite Hvalid.
  cbn [negb]. rewrite (increment_with_iterator _ _ _ _ Hadv).
  cbn [mbind Res_bind]. rewrite Hk. reflexivity.
Qed.

(** A turn of the loop of [parseBlock] on a token that is no braced block:
    the loop goes on, with the slots in order. *)
Lemma header_turn NDEBUG it it1 log hs nameIndex typeIndex :
  _hasValidToken it = true ->
  Iterator_advance NDEBUG it = Ok it1 ->
  header_slots hs nameIndex typeIndex ->
  leafy hs = true -> Forall (fun p => p <> None) hs ->
  Z.of_nat (length hs) + 1 < 2 ^ 31 ->
  DefSyntaxToken.type (_token it) <> DefSyntaxToken.BracedBlock ->
  exists hs1 n1 t1 note,
    header_slots hs1 n1 t1
    /\ leafy hs1 = true /\ Forall (fun p => p <> None) hs1
    /\ (nameIndex <> -1
        \/ DefSyntaxToken.type (_token it) = DefSyntaxToken.Token ->
        n1 <> -1)
    /\ (length hs1 <= S (length hs))%nat
    /\ forall fuel,
         parseBlock_loop NDEBUG (S fuel) hs None nameIndex typeIndex
           (with_iterator it log)
         = parseBlock_loop NDEBUG fuel hs1 None n1 t1
             (with_iterator it1 (log ++ note)).
Proof.
  intros Hvalid Hadv Hslots Hleafy Hnonnull Hbound Hnoblock.
  assert (Hadd : forall node,
             leafy_ptr (Some node) = true ->
             leafy (hs ++ [Some node]) = true
             /\ Forall (fun p => p <> None) (hs ++ [Some node])).
  { intros node Hnode. split.
    - rewrite leafy_app, Hleafy. unfold leafy. cbn [forallb].
      rewrite Hnode. reflexivity.
    - apply Forall_app. split; [exact Hnonnull|].
      constructor; [discriminate|constructor]. }
  assert (Htrivia : is_trivia (_token it) = true ->
            exists hs1 n1 t1 note,
              header_slots hs1 n1 t1
              /\ leafy hs1 = true /\ Forall (fun p => p <> None) hs1
              /\ (nameIndex <> -1
                  \/ DefSyntaxToken.type (_token it) = DefSyntaxToken.Token ->
                  n1 <> -1)
              /\ (length hs1 <= S (length hs))%nat
              /\ forall fuel,
                   parseBlock_loop NDEBUG (S fuel) hs None nameIndex typeIndex
                     (with_iterator it log)
                   = parseBlock_loop NDEBUG fuel hs1 None n1 t1
                       (with_iterator it1 (log ++ note))).
  { intros Htr.
    exists (hs ++ [trivia_node (_token it)]), nameIndex, typeIndex, [].
    assert (Hnode : exists node, trivia_node (_token it) = Some node
                                 /\ leafy_ptr (Some node) = true).
    { unfold trivia_node.
      destruct (DefSyntaxToken.type (_token it)); eexists; split; reflexivity. }
    destruct Hnode as (node & Hnode & Hleaf). rewrite Hnode.
    destruct (Hadd node Hleaf) as [Hl Hf].
    split; [apply header_slots_app; exact Hslots|].
    split; [exact Hl|]. split; [exact Hf|].
    split.
    { intros [Hn|Hk]; [exact Hn|].
      unfold is_trivia in Htr. rewrite Hk in Htr. discriminate. }
    split; [rewrite length_app; cbn [length]; lia|].
    intros fuel. rewrite app_nil_r, <- Hnode.
    apply (turn_trivia NDEBUG it it1 log Hvalid Hadv). exact Htr. }
  destruct (DefSyntaxToken.type (_token it)) eqn:Hk;
    try (apply Htrivia; unfold is_trivia; rewrite Hk; reflexivity);
    [|congruence|].
  - (* no kind *)
    exists hs, nameIndex, typeIndex, [].
    split; [exact Hslots|]. split; [exact Hleafy|]. split; [exact Hnonnull|].
    split; [intros [Hn|Hk']; [exact Hn|discriminate]|].
    split; [lia|]. intros fuel. rewrite app_nil_r.
    apply (turn_nothing NDEBUG it it1 log fuel _ _ _ Hvalid Hadv Hk).
  - (* an identifier *)
    destruct Hslots
      as [[-> ->]|[(-> & Hn & nt & Hname & Hknt)
                  |(Hlt & tt & nt & Htype & Hkt & Hname & Hknt)]].
    + exists (hs ++ [Some (DefNameSyntax (_token it))]),
        (Z.of_nat (length hs)), (-1), [].
      destruct (Hadd (DefNameSyntax (_token it)) eq_refl) as [Hl Hf].
      split.
      { right. left. split; [reflexivity|]. split; [lia|].
        exists (_token it). split; [|exact Hk].
        rewrite Nat2Z.id. apply list_lookup_middle. reflexivity. }
      split; [exact Hl|]. split; [exact Hf|].
      split; [intros _; lia|].
      split; [rewrite length_app; cbn [length]; lia|].
      intros fuel. rewrite app_nil_r.
      rewrite (turn_first_identifier NDEBUG it it1 log Hvalid Hadv)
        by exact Hk.
      rewrite static_cast_int_small by lia. reflexivity.
    + pose proof (lookup_lt_Some _ _ _ Hname) as Hlen.
      exists (<[Z.to_nat nameIndex := Some (DefTypeSyntax nt)]> hs
              ++ [Some (DefNameSyntax (_token it))]),
        (Z.of_nat (length hs)), nameIndex, [].
      destruct (tokens_of_header_retype hs _ _ Hname) as [_ Hleafy1].
      split.
      { right. right. split; [lia|]. exists nt, (_token it).
        split.
        { rewrite lookup_app_l by (rewrite length_insert; exact Hlen).
          apply list_lookup_insert_eq. exact Hlen. }
        split; [exact Hknt|]. split; [|exact Hk].
        rewrite Nat2Z.id. apply list_lookup_middle.
        rewrite length_insert. reflexivity. }
      split.
      { rewrite leafy_app, Hleafy1, Hleafy. reflexivity. }
      split.
      { apply Forall_app. split.
        - apply Forall_insert; [exact Hnonnull|discriminate].
        - constructor; [discriminate|constructor]. }
      split; [intros _; lia|].
      split; [rewrite length_app, length_insert; cbn [length]; lia|].
      intros fuel. rewrite app_nil_r.
      rewrite (turn_second_identifier NDEBUG it it1 log Hvalid Hadv _ _ _
                 nt Hn Hname Hknt Hk).
      rewrite static_cast_int_small by lia. reflexivity.
    + exists hs, nameIndex, typeIndex, [invalid_header_warning].
      split.
      { right. right. split; [exact Hlt|]. exists tt, nt. auto. }
      split; [exact Hleafy|]. split; [exact Hnonnull|].
      split; [intros _; lia|]. split; [lia|].
      intros fuel.
      apply (turn_third_identifier NDEBUG it it1 log Hvalid Hadv); [lia|lia|].
      exact Hk.
Qed.

Lemma bind_Fail_inv {A B} (m : Res A) (k : A -> Res B) (f : Fault) :
  m ≫= k = Fail f -> m = Fail f \/ exists a, m = Ok a /\ k a = Fail f.
Proof.
  destruct m as [a|f']; [eauto|]. cbn. intros H. left. injection H as ->.
  reflexivity.
Qed.

Lemma advance_fault NDEBUG it f :
  Iterator_advance NDEBUG it = Fail f -> f = CursorPastEnd.
Proof.
  unfold Iterator_advance. intros H.
  apply bind_Fail_inv in H as [H|([[found next] tok] & _ & H)];
    [|discriminate].
  destruct (tokeniser_cases NDEBUG (_cur it)) as [[_ H']|[[_ H']|[H'|H']]].
  - rewrite H in H'. discriminate.
  - rewrite H in H'. congruence.
  - destruct H' as (? & ? & ? & ? & _ & _ & _ & H' & _).
    rewrite H in H'. discriminate.
  - destruct H' as (? & ? & H' & _). rewrite H in H'. discriminate.
Qed.

Lemma lookup_nonnull (hs : list Ptr) (i : nat) (p : Ptr) :
  Forall (fun p => p <> None) hs -> hs !! i = Some p -> p <> None.
Proof.
  intros Hall Hi. rewrite Forall_lookup in Hall. exact (Hall i p Hi).
Qed.

(** The constructor of [DefBlockSyntax] on the slots of [parseBlock]. *)
Lemma make_block_slots NDEBUG tok hs nameIndex typeIndex :
  DefSyntaxToken.type tok = DefSyntaxToken.BracedBlock ->
  header_slots hs nameIndex typeIndex ->
  leafy hs = true -> Forall (fun p => p <> None) hs ->
  (nameIndex = -1
   /\ make_DefBlockSyntax NDEBUG tok hs nameIndex typeIndex
      = if NDEBUG then Ok (DefBlockSyntax tok hs None None)
        else Fail (AssertionFailed "nameIndex >= 0"))
  \/ (nameIndex <> -1
      /\ exists b, make_DefBlockSyntax NDEBUG tok hs nameIndex typeIndex = Ok b
                   /\ named_block b).
Proof.
  intros Hk Hslots Hleafy Hnonnull. unfold make_DefBlockSyntax, assert.
  rewrite Hk.
  destruct Hslots
    as [[-> ->]|[(-> & Hn & nt & Hname & Hknt)
                |(Hlt & tt & nt & Htype & Hkt & Hname & Hknt)]].
  - left. split; [reflexivity|]. destruct NDEBUG; reflexivity.
  - right. split; [lia|].
    exists (DefBlockSyntax tok hs None (Some (DefNameSyntax nt))). split.
    + destruct (0 <=? nameIndex) eqn:H0; [|lia].
      destruct (nameIndex =? -1) eqn:H1; [lia|].
      unfold vector_at. destruct (nameIndex <? 0) eqn:H2; [lia|].
      rewrite Hname. cbn. rewrite !orb_true_r. reflexivity.
    + exists tok, hs, None, nt, (Z.to_nat nameIndex). auto 10.
  - right. split; [lia|].
    exists (DefBlockSyntax tok hs (Some (DefTypeSyntax tt))
              (Some (DefNameSyntax nt))). split.
    + destruct (0 <=? nameIndex) eqn:H0; [|lia].
      destruct (nameIndex =? -1) eqn:H1; [lia|].
      destruct (typeIndex =? -1) eqn:H3; [lia|].
      unfold vector_at. destruct (nameIndex <? 0) eqn:H2; [lia|].
      destruct (typeIndex <? 0) eqn:H4; [lia|].
      rewrite Hname. cbn. rewrite !orb_true_r. cbn. rewrite Htype.
      reflexivity.
    + exists tok, hs, (Some (DefTypeSyntax tt)), nt, (Z.to_nat nameIndex).
      repeat split; try assumption.
      right. exists tt, (Z.to_nat typeIndex). repeat split; try assumption.
      lia.
Qed.

Lemma block_turn NDEBUG it it1 log fuel hs nameIndex typeIndex :
  _hasValidToken it = true ->
  Iterator_advance NDEBUG it = Ok it1 ->
  DefSyntaxToken.type (_token it) = DefSyntaxToken.BracedBlock ->
  parseBlock_loop NDEBUG (S fuel) hs None nameIndex typeIndex
    (with_iterator it log)
  = (node ← make_DefBlockSyntax NDEBUG (_token it) hs nameIndex typeIndex;
     parseBlock_loop NDEBUG fuel hs (Some node) nameIndex typeIndex
       (with_iterator it1 log)).
Proof.
  intros Hvalid Hadv Hk. cbn [parseBlock_loop is_null andb].
  unfold isExhausted. cbn [_tokIter with_iterator]. rewrite Hvalid.
  cbn [negb]. rewrite (increment_with_iterator _ _ _ _ Hadv).
  cbn [mbind Res_bind]. rewrite Hk. reflexivity.
Qed.

Lemma parseBlock_loop_done_fault NDEBUG fuel hs node nameIndex typeIndex
    this f :
  parseBlock_loop NDEBUG fuel hs (Some node) nameIndex typeIndex this = Fail f
  -> f = OutOfFuel.
Proof. destruct fuel; simpl; congruence. Qed.

(** The loop of [parseBlock], once it has seen an identifier or stands on
    one: the block it returns has its name, and it ends in no fault but the
    tokeniser function's. *)
Lemma parseBlock_loop_sound NDEBUG (fuel : nat) :
  forall hs nameIndex typeIndex it log,
    header_slots hs nameIndex typeIndex ->
    leafy hs = true -> Forall (fun p => p <> None) hs ->
    Z.of_nat (length hs) + Z.of_nat (remaining it) < 2 ^ 31 ->
    nameIndex <> -1
    \/ DefSyntaxToken.type (_token it) = DefSyntaxToken.Token ->
    match parseBlock_loop NDEBUG fuel hs None nameIndex typeIndex
            (with_iterator it log) with
    | Ok (Some b, _) => named_block b
    | Ok (None, this') => _hasValidToken (_tokIter this') = false
    | Fail f => f = CursorPastEnd \/ f = OutOfFuel
    end.
Proof.
  induction fuel as [|fuel IH];
    intros hs n t it log Hslots Hleafy Hnonnull Hbound Hnamed;
    [right; reflexivity|].
  destruct (_hasValidToken it) eqn:Hvalid.
  2:{ cbn [parseBlock_loop is_null andb]. unfold isExhausted.
      cbn [_tokIter with_iterator]. rewrite Hvalid. exact Hvalid. }
  assert (Hrem : (1 <= remaining it)%nat)
    by (unfold remaining; rewrite Hvalid; lia).
  destruct (Iterator_advance NDEBUG it) as [it1|f] eqn:Hadv.
  2:{ cbn [parseBlock_loop is_null andb]. unfold isExhausted, increment.
      cbn [_tokIter with_iterator]. rewrite Hvalid, Hadv.
      left. exact (advance_fault _ _ _ Hadv). }
  pose proof (advance_remaining _ _ _ Hvalid Hadv) as Hlt.
  destruct (decide (DefSyntaxToken.type (_token it)
                    = DefSyntaxToken.BracedBlock)) as [Hk|Hk].
  - rewrite (block_turn NDEBUG it it1 log fuel _ _ _ Hvalid Hadv Hk).
    destruct (make_block_slots NDEBUG (_token it) hs n t Hk Hslots Hleafy
                Hnonnull) as [[Hn _]|(_ & b & -> & Hb)].
    { destruct Hnamed as [?|Hk']; [contradiction|congruence]. }
    cbn [mbind Res_bind]. destruct fuel; [right; reflexivity|exact Hb].
  - destruct (header_turn NDEBUG it it1 log hs n t Hvalid Hadv Hslots Hleafy
                Hnonnull ltac:(lia) Hk)
      as (hs1 & n1 & t1 & note & Hslots1 & Hleafy1 & Hnonnull1 & Hn1 & Hlen
          & Heq).
    rewrite Heq. apply IH; try assumption; [lia|].
    left. apply Hn1. exact Hnamed.
Qed.

(** [parseBlock], called as [parse] calls it, on an identifier: it returns
    a block with its name, or the null pointer with the tokens at their
    end, and ends in no fault but the tokeniser function's. *)
Lemma parseBlock_sound NDEBUG it log :
  _hasValidToken it = true ->
  DefSyntaxToken.type (_token it) = DefSyntaxToken.Token ->
  Z.of_nat (remaining it) < 2 ^ 31 ->
  match parseBlock NDEBUG (with_iterator it log) with
  | Ok (Some b, _) => named_block b
  | Ok (None, this') => _hasValidToken (_tokIter this') = false
  | Fail f => f = CursorPastEnd
  end.
Proof.
  intros Hvalid Hk Hbound.
  pose proof (parseBlock_ends NDEBUG (with_iterator it log)) as Hends.
  pose proof (parseBlock_loop_sound NDEBUG (enough it) [] (-1) (-1) it log)
    as H.
  unfold parseBlock in *. cbn [_tokIter with_iterator] in *.
  destruct (parseBlock_loop NDEBUG (enough it) [] None (-1) (-1)
              (with_iterator it log)) as [[[b|] this']|f].
  - apply H; [left; split; reflexivity|reflexivity|constructor|
              cbn [length]; lia|right; exact Hk].
  - apply H; [left; split; reflexivity|reflexivity|constructor|
              cbn [length]; lia|right; exact Hk].
  - destruct H as [H|H];
      [left; split; reflexivity|reflexivity|constructor|
       cbn [length]; lia|right; exact Hk|exact H|].
    subst f. exfalso. apply Hends. reflexivity.
Qed.

Lemma make_DefWhitespaceSyntax_ok NDEBUG tok :
  DefSyntaxToken.type tok = DefSyntaxToken.Whitespace ->
  make_DefWhitespaceSyntax NDEBUG tok = Ok (DefWhitespaceSyntax tok).
Proof.
  intros Hk. unfold make_DefWhitespaceSyntax, assert. rewrite Hk.
  cbn. rewrite orb_true_r. reflexivity.
Qed.

Lemma make_DefCommentSyntax_ok NDEBUG tok :
  DefSyntaxToken.type tok = DefSyntaxToken.EolComment
  \/ DefSyntaxToken.type tok = DefSyntaxToken.BlockComment ->
  make_DefCommentSyntax NDEBUG tok = Ok (DefCommentSyntax tok).
Proof.
  intros [Hk|Hk]; unfold make_DefCommentSyntax, assert; rewrite Hk;
    cbn; rewrite orb_true_r; reflexivity.
Qed.

(** The loop of [parse]: the children it adds to the root are whitespace,
    comments and blocks, a null pointer can only come last, the tokens are
    at their end when it returns; and it ends in no fault but the tokeniser
    function's and the assertion on the name index. *)
Lemma parse_loop_sound NDEBUG (fuel : nat) :
  forall tree it log k cs,
    _root tree = Some (Node k cs) ->
    Z.of_nat (remaining it) < 2 ^ 31 ->
    match parse_loop NDEBUG fuel tree (with_iterator it log) with
    | Ok (tree', this') =>
        exists nodes last,
          _root tree' = Some (Node k (cs ++ map Some nodes ++ last))
          /\ Forall root_child nodes
          /\ (last = [] \/ last = [None])
          /\ _hasValidToken (_tokIter this') = false
    | Fail f => tolerable NDEBUG f
    end.
Proof.
  induction fuel as [|fuel IH]; intros tree it log k cs Hroot Hbound;
    [right; left; reflexivity|].
  cbn [parse_loop]. unfold isExhausted. cbn [_tokIter with_iterator].
  destruct (_hasValidToken it) eqn:Hvalid; cbn [negb].
  2:{ exists [], []. cbn [map app]. rewrite app_nil_r.
      split; [exact Hroot|]. split; [constructor|]. split; [left; reflexivity|].
      exact Hvalid. }
  (* a turn that appends a node made of the token at hand *)
  assert (Hkeep :
            forall node log0,
              root_child node ->
              match
                (syntaxTree ← appendToRoot tree (Some node);
                 this1 ← increment NDEBUG (with_iterator it log0);
                 parse_loop NDEBUG fuel syntaxTree this1)
              with
              | Ok (tree', this') =>
                  exists nodes last,
                    _root tree' = Some (Node k (cs ++ map Some nodes ++ last))
                    /\ Forall root_child nodes
                    /\ (last = [] \/ last = [None])
                    /\ _hasValidToken (_tokIter this') = false
              | Fail f => tolerable NDEBUG f
              end).
  { intros node log0 Hnode.
    rewrite (appendToRoot_root _ _ _ _ Hroot). cbn [mbind Res_bind].
    unfold increment. cbn [_tokIter rWarning with_iterator].
    destruct (Iterator_advance NDEBUG it) as [it1|f] eqn:Hadv.
    2:{ left. exact (advance_fault _ _ _ Hadv). }
    cbn [mbind Res_bind].
    pose proof (advance_remaining _ _ _ Hvalid Hadv) as Hlt.
    specialize (IH {| _root := Some (Node k (cs ++ [Some node])) |} it1 log0
                  k (cs ++ [Some node]) eq_refl ltac:(lia)).
    unfold with_iterator in IH.
    destruct (parse_loop NDEBUG fuel _ _) as [[tree' this']|f];
      [|exact IH].
    destruct IH as (nodes & last & Hroot' & Hnodes & Hlast & Hend).
    exists (node :: nodes), last.
    split; [rewrite Hroot', <- app_assoc; reflexivity|].
    split; [constructor; assumption|]. split; assumption. }
  destruct (DefSyntaxToken.type (_token it)) eqn:Hk.
  - (* no kind *)
    apply IH; assumption.
  - rewrite make_DefWhitespaceSyntax_ok by exact Hk. cbn [mbind Res_bind].
    apply Hkeep. left. eauto.
  - (* the block without a name *)
    destruct (make_block_slots NDEBUG (_token it) [] (-1) (-1) Hk)
      as [[_ Hmake]|[Hn _]];
      [left; split; reflexivity|reflexivity|constructor| |contradiction].
    rewrite Hmake. destruct NDEBUG.
    + cbn [mbind Res_bind].
      apply (Hkeep (DefBlockSyntax (_token it) [] None None)).
      right. right. right. eauto.
    + right. right. split; reflexivity.
  - (* a declaration block *)
    pose proof (parseBlock_sound NDEBUG it log Hvalid Hk Hbound) as Hsound.
    destruct (parseBlock NDEBUG (with_iterator it log))
      as [[block [it1 log1]]|f] eqn:Hblock;
      [|left; exact Hsound].
    cbn [mbind Res_bind].
    rewrite (appendToRoot_root _ _ _ _ Hroot). cbn [mbind Res_bind].
    pose proof (parseBlock_remaining NDEBUG (with_iterator it log) _ _
                  Hvalid Hblock) as Hlt.
    cbn [_tokIter with_iterator] in Hlt, Hsound.
    destruct block as [b|].
    + specialize (IH {| _root := Some (Node k (cs ++ [Some b])) |} it1 log1
                    k (cs ++ [Some b]) eq_refl ltac:(lia)).
      unfold with_iterator in IH.
      destruct (parse_loop NDEBUG fuel _ _) as [[tree' this']|f];
        [|exact IH].
      destruct IH as (nodes & last & Hroot' & Hnodes & Hlast & Hend).
      exists (b :: nodes), last.
      split; [rewrite Hroot', <- app_assoc; reflexivity|].
      split; [constructor; [right; right; left; exact Hsound|assumption]|].
      split; assumption.
    + destruct fuel as [|fuel]; [right; left; reflexivity|].
      cbn [parse_loop]. unfold isExhausted. cbn [_tokIter].
      rewrite Hsound. cbn [negb].
      exists [], [None]. cbn [map app _root _tokIter].
      split; [reflexivity|]. split; [constructor|].
      split; [right; reflexivity|exact Hsound].
  - rewrite make_DefCommentSyntax_ok by (left; exact Hk).
    cbn [mbind Res_bind]. apply Hkeep. right. left. eauto.
  - rewrite make_DefCommentSyntax_ok by (right; exact Hk).
    cbn [mbind Res_bind]. apply Hkeep. right. left. eauto.
Qed.

Lemma getIterator_remaining NDEBUG (str : string) (it : Iterator) :
  getIterator NDEBUG str = Ok it ->
  (remaining it <= String.length str)%nat.
Proof.
  intros Hit. unfold remaining.
  destruct (_hasValidToken it) eqn:Hvalid; [|lia].
  destruct (advance_progress _ _ _ Hit Hvalid) as [Hlt _].
  cbn [_cur] in Hlt. lia.
Qed.




(** The tree [parse] returns for a text of fewer than 2^31 characters has
    one level: the children of its root are whitespace nodes, comment nodes
    and blocks; a block has a name node of its header, and a type node only
    before the name, unless it is the block without any header; and a null
    child can only be the last one. *)
Theorem parse_tree_shape (NDEBUG : bool) (str : string)
    (tree : DefSyntaxTree) (log : list string) :
  Z.of_nat (String.length str) < 2 ^ 31 ->
  parse_string NDEBUG str = Ok (tree, log) ->
  exists nodes last,
    _root tree = Some (Node NodeType.Root (map Some nodes ++ last))
    /\ Forall root_child nodes
    /\ (last = [] \/ last = [None]).
Proof.
  intros Hlen Hparse.
  unfold parse_string, make_DefBlockSyntaxParser in Hparse.
  apply bind_Ok_inv in Hparse as (this & Hthis & Hparse).
  apply bind_Ok_inv in Hthis as (it & Hit & Hthis). injection Hthis as <-.
  apply bind_Ok_inv in Hparse as ([tree' this'] & Hparse & Hres).
  injection Hres as -> <-.
  pose proof (getIterator_remaining _ _ _ Hit) as Hrem.
  pose proof (parse_loop_sound NDEBUG (enough it) make_DefSyntaxTree it []
                NodeType.Root [] eq_refl ltac:(lia)) as Hsound.
  unfold parse in Hparse. cbn [_tokIter] in Hparse.
  unfold with_iterator in Hsound. rewrite Hparse in Hsound.
  destruct Hsound as (nodes & last & Hroot & Hnodes & Hlast & _).
  exists nodes, last. auto.
Qed.

Lemma parse_tree_shape_witness :
  exists nodes last,
    _root
      {| _root :=
           Some (Node NodeType.Root
                   [Some (DefBlockSyntax
                            (token DefSyntaxToken.BracedBlock "{}")
                            [Some (DefNameSyntax
                                     (token DefSyntaxToken.Token "a"))]
                            None
                            (Some (DefNameSyntax
                                     (token DefSyntaxToken.Token "a"))));
                    Some (DefWhitespaceSyntax
                            (token DefSyntaxToken.Whitespace " "));
                    None]) |}
    = Some (Node NodeType.Root (map Some nodes ++ last))
    /\ Forall root_child nodes
    /\ (last = [] \/ last = [None]).
Proof.
  apply (parse_tree_shape false "a{} c" _ []); reflexivity.
Defined.

(** ** Identifiers after the second *)

Lemma extra_headers_run NDEBUG (toks : list DefSyntaxToken) :
  forall it mid log fuel hs nameIndex typeIndex,
    nameIndex <> -1 -> typeIndex <> -1 ->
    forallb is_header_token toks = true ->
    reads NDEBUG it toks mid ->
    parseBlock_loop NDEBUG (length toks + fuel) hs None nameIndex typeIndex
      (with_iterator it log)
    = parseBlock_loop NDEBUG fuel
        (hs ++ map trivia_node (List.filter is_trivia toks)) None
        nameIndex typeIndex
        (with_iterator mid
           (log ++ replicate (length (List.filter is_identifier toks))
                     invalid_header_warning)).
Proof.
  induction toks as [|tok toks IH];
    intros it mid log fuel hs n t Hn Ht Htoks Hreads.
  - inversion Hreads; subst. cbn. rewrite !app_nil_r. reflexivity.
  - apply reads_cons_inv in Hreads as (-> & Hvalid & it1 & Hadv & Hreads).
    cbn [forallb] in Htoks. apply andb_prop in Htoks as [Htok Htoks].
    change (length (_token it :: toks) + fuel)%nat
      with (S (length toks + fuel)).
    cbn [List.filter].
    destruct (is_trivia (_token it)) eqn:Htrivia.
    + assert (Hid : is_identifier (_token it) = false).
      { unfold is_identifier, is_trivia in *.
        destruct (DefSyntaxToken.type (_token it)); try discriminate;
          reflexivity. }
      rewrite Hid.
      rewrite (turn_trivia NDEBUG it it1 log Hvalid Hadv) by exact Htrivia.
      rewrite (IH it1 mid log fuel _ n t Hn Ht Htoks Hreads).
      cbn [map]. rewrite <- app_assoc. reflexivity.
    + unfold is_header_token in Htok. rewrite Htrivia in Htok.
      cbn [orb] in Htok. rewrite Htok.
      unfold is_identifier in Htok. apply bool_decide_eq_true_1 in Htok.
      rewrite (turn_third_identifier NDEBUG it it1 log Hvalid Hadv _ _ _ _
                 Hn Ht Htok).
      rewrite (IH it1 mid _ fuel _ n t Hn Ht Htoks Hreads).
      cbn [length replicate]. rewrite <- app_assoc. reflexivity.
Qed.

(** After the type and the name, every further identifier before the brace
    costs one warning and makes no node, while the whitespace and the
    comments among them are kept in the header, in their order. *)
Theorem further_identifiers_are_discarded (NDEBUG : bool)
    (it it' : Iterator) (log : list string)
    (first second block : DefSyntaxToken)
    (ws1 more : list DefSyntaxToken) :
  DefSyntaxToken.type first = DefSyntaxToken.Token ->
  DefSyntaxToken.type second = DefSyntaxToken.Token ->
  DefSyntaxToken.type block = DefSyntaxToken.BracedBlock ->
  forallb is_trivia ws1 = true ->
  forallb is_header_token more = true ->
  Z.of_nat (length ws1) + 1 < 2 ^ 31 ->
  reads NDEBUG it (first :: ws1 ++ second :: more ++ [block]) it' ->
  parseBlock NDEBUG (with_iterator it log)
  = Ok (Some (DefBlockSyntax block
                (Some (DefTypeSyntax first) :: map trivia_node ws1
                 ++ Some (DefNameSyntax second)
                    :: map trivia_node (List.filter is_trivia more))
                (Some (DefTypeSyntax first)) (Some (DefNameSyntax second))),
        with_iterator it'
          (log ++ replicate (length (List.filter is_identifier more))
                    invalid_header_warning)).
Proof.
  intros Hfirst Hsecond Hblock Hws1 Hmore Hbound Hreads.
  pose proof (reads_length _ _ _ _ Hreads) as Hlen.
  cbn [length] in Hlen.
  repeat (rewrite length_app in Hlen; cbn [length] in Hlen).
  unfold parseBlock, enough. cbn [_tokIter with_iterator].
  replace (S (S (String.length (_cur it))))
    with (S (length ws1
             + S (length more
                  + S (S (String.length (_cur it)
                          - (length ws1 + length more + 2))))))
    by lia.
  change (first :: ws1 ++ second :: more ++ [block])
    with ((first :: ws1) ++ [second] ++ more ++ [block]) in Hreads.
  rewrite app_assoc in Hreads.
  apply reads_app_inv in Hreads as (mid & Hhead & Hreads).
  apply reads_app_inv in Hreads as (it2 & Hreads2 & Hreads).
  apply reads_cons_inv in Hreads as (-> & Hvalid & it3 & Hadv & Hreads).
  inversion Hreads; subst it'.
  rewrite (parseBlock_loop_type_name NDEBUG it mid log first second ws1 _
             Hfirst Hsecond Hws1 Hbound Hhead).
  rewrite (extra_headers_run NDEBUG more mid it2 log _ _
             (Z.of_nat (S (length ws1))) 0
             ltac:(lia) ltac:(lia) Hmore Hreads2).
  cbn [app]. rewrite <- app_assoc. cbn [app].
  apply (turn_block NDEBUG it2 it3 _ Hvalid Hadv); try assumption.
  - lia.
  - rewrite <- (length_map trivia_node ws1). apply header_lookup_name.
  - split; [lia|reflexivity].
Qed.

Lemma further_identifiers_are_discarded_witness :
  parseBlock false
    (with_iterator (at_token (token DefSyntaxToken.Token "a") " b c d {}") [])
  = Ok (Some (DefBlockSyntax (token DefSyntaxToken.BracedBlock "{}")
                [Some (DefTypeSyntax (token DefSyntaxToken.Token "a"));
                 Some (DefWhitespaceSyntax
                         (token DefSyntaxToken.Whitespace " "));
                 Some (DefNameSyntax (token DefSyntaxToken.Token "b"));
                 Some (DefWhitespaceSyntax
                         (token DefSyntaxToken.Whitespace " "));
                 Some (DefWhitespaceSyntax
                         (token DefSyntaxToken.Whitespace " "));
                 Some (DefWhitespaceSyntax
                         (token DefSyntaxToken.Whitespace " "))]
                (Some (DefTypeSyntax (token DefSyntaxToken.Token "a")))
                (Some (DefNameSyntax (token DefSyntaxToken.Token "b")))),
        with_iterator exhausted_iterator
          [invalid_header_warning; invalid_header_warning]).
Proof.
  refine (further_identifiers_are_discarded false
            (at_token (token DefSyntaxToken.Token "a") " b c d {}")
            exhausted_iterator []
            (token DefSyntaxToken.Token "a")
            (token DefSyntaxToken.Token "b")
            (token DefSyntaxToken.BracedBlock "{}")
            [token DefSyntaxToken.Whitespace " "]
            [token DefSyntaxToken.Whitespace " ";
             token DefSyntaxToken.Token "c";
             token DefSyntaxToken.Whitespace " ";
             token DefSyntaxToken.Token "d";
             token DefSyntaxToken.Whitespace " "]
            _ _ _ _ _ _ _); try reflexivity.
  repeat (eapply reads_cons; [reflexivity|reflexivity|]).
  apply reads_nil.
Defined.

(** ** What a call of the tokeniser function reports *)

(** A call that reports a token has moved the cursor and returns a token
    that is not empty and has a type; a call that reports none was made at
    the end of the text. *)
Theorem tokeniser_call_report (NDEBUG : bool) (next next' : string)
    (found : bool) (tok : DefSyntaxToken) :
  DefBlockSyntaxTokeniserFunc NDEBUG next = Ok (found, next', tok) ->
  if found
  then (String.length next' < String.length next)%nat
       /\ started tok
       /\ DefSyntaxToken.type tok <> DefSyntaxToken.Nothing
  else next = EmptyString.
Proof.
  intros Hrun. destruct found.
  - exact (tokeniser_progress NDEBUG next next' tok Hrun).
  - exact (tokeniser_exhausted NDEBUG next next' tok Hrun).
Qed.

Lemma tokeniser_call_report_witness :
  (String.length "{}" < String.length " {}")%nat
  /\ started (token DefSyntaxToken.Whitespace " ")
  /\ DefSyntaxToken.type (token DefSyntaxToken.Whitespace " ")
     <> DefSyntaxToken.Nothing.
Proof.
  apply (tokeniser_call_report false " {}" "{}" true
           (token DefSyntaxToken.Whitespace " ")).
  reflexivity.
Defined.

Lemma bare_token_is_maximal_run_witness :
  DefBlockSyntaxTokeniserFunc false "textures/a/b//c"
  = Ok (true, "//c", token DefSyntaxToken.Token "textures/a/b").
Proof.
  apply (bare_token_is_maximal_run false "t" "extures/a/b//c"); reflexivity.
Defined.

Lemma block_comment_without_end_witness :
  DefBlockSyntaxTokeniserFunc false "/* a * / {} *"
  = Ok (true, EmptyString,
        token DefSyntaxToken.BlockComment "/* a * / {} *").
Proof.
  apply (block_comment_without_end false " a * / {} *"). reflexivity.
Defined.



(** ** The stream cursor *)

Lemma peek_stream_agrees (next : string) :
  Ascii.eqb (StreamIteratorAdapter_peek next) Asterisk
  || Ascii.eqb (StreamIteratorAdapter_peek next) Slash
  = Ascii.eqb (peek next) Asterisk || Ascii.eqb (peek next) Slash.
Proof.
  destruct next as [|ch [|c rest]]; reflexivity.
Qed.

Lemma tokeniser_loop_on_stream NDEBUG (n : nat) :
  forall (next : string) (_state : State.t) (openedBlocks : Z)
         (tok : DefSyntaxToken),
    (String.length next <= n)%nat ->
    DefBlockSyntaxTokeniserFunc_loop_on NDEBUG StreamIteratorAdapter_peek
      _state openedBlocks tok next
    = DefBlockSyntaxTokeniserFunc_loop NDEBUG _state openedBlocks tok next.
Proof.
  induction n as [|n IH]; intros [|ch rest] _state openedBlocks tok Hlen;
    try reflexivity.
  { cbn [String.length] in Hlen. lia. }
  cbn [String.length] in Hlen.
  assert (Hrest : (String.length rest <= n)%nat) by lia.
  destruct _state;
    cbn [DefBlockSyntaxTokeniserFunc_loop_on DefBlockSyntaxTokeniserFunc_loop];
    rewrite ?peek_stream_agrees;
    try (destruct (assert NDEBUG "!tok.value.empty()"
                     (negb (empty (DefSyntaxToken.value tok)))) as [[]|f];
         cbn [mbind Res_bind]; [|reflexivity]);
    repeat match goal with
           | |- ?x = ?x => reflexivity
           | |- DefBlockSyntaxTokeniserFunc_loop_on _ _ _ _ _ _ = _ =>
               apply IH; cbn [String.length] in Hrest; lia
           | |- context [if ?b then _ else _] => destruct b
           | |- context [match ?r with
                         | EmptyString => _
                         | String _ _ => _
                         end] => destruct r
           end.
Qed.

(** Read from a stream, a text gives the tokens it gives as a string: the
    two cursors differ in what [peek] answers at the last character (the
    character 255 of the stream, the character 0 of the string), and the
    tokeniser compares that answer with [*] and [/] only. *)
Theorem stream_tokens_are_string_tokens (NDEBUG : bool) (next : string) :
  DefBlockSyntaxTokeniserFunc_stream NDEBUG next
  = DefBlockSyntaxTokeniserFunc NDEBUG next.
Proof.
  unfold DefBlockSyntaxTokeniserFunc_stream, DefBlockSyntaxTokeniserFunc.
  apply (tokeniser_loop_on_stream NDEBUG (String.length next)). lia.
Qed.

(** ** Rendering of nodes *)

(** [getString] has one way to fail: a null child of a plain node. *)
Lemma getString_fault :
  forall (n : DefSyntaxNode) (f : Fault),
    getString n = Fail f -> f = NullDereference.
Proof.
  fix IH 1. intros [k cs|tok|tok|tok|tok|tok hs ty nm] f;
    cbn [getString]; try discriminate.
  - generalize EmptyString.
    induction cs as [|[c|] cs IHcs]; intros value; cbn [each_child].
    + discriminate.
    + destruct (getString c) as [s|f'] eqn:Hc; cbn [mbind Res_bind].
      * apply IHcs.
      * intros H. injection H as <-. exact (IH c f' Hc).
    + intros H. injection H as <-. reflexivity.
  - assert (Hhs : forall output,
               each_headerNode getString hs output = Fail f ->
               f = NullDereference).
    { induction hs as [|[h|] hs IHhs]; intros output; cbn [each_headerNode].
      - discriminate.
      - destruct (getString h) as [s|f'] eqn:Hh; cbn [mbind Res_bind].
        + apply IHhs.
        + intros H. injection H as <-. exact (IH h f' Hh).
      - apply IHhs. }
    destruct (each_headerNode getString hs EmptyString) as [s|f'] eqn:Hrun;
      cbn [mbind Res_bind]; [discriminate|].
    intros H. injection H as <-. exact (Hhs _ Hrun).
Qed.

Lemma each_child_null (cs : list Ptr) :
  In None cs ->
  forall value, each_child getString cs value = Fail NullDereference.
Proof.
  induction cs as [|[c|] cs IH]; intros Hin value; cbn [each_child].
  - destruct Hin.
  - destruct Hin as [Hin|Hin]; [discriminate|].
    destruct (getString c) as [s|f] eqn:Hc; cbn [mbind Res_bind].
    + apply IH. exact Hin.
    + rewrite (getString_fault c f Hc). reflexivity.
  - reflexivity.
Qed.

(** A plain node with a null child has no text: [getString] dereferences the
    null pointer, whatever the other children are. *)
Theorem getString_null_child (k : NodeType.t) (cs : list Ptr) :
  In None cs ->
  getString (Node k cs) = Fail NullDereference.
Proof.
  intros Hin. cbn [getString]. apply each_child_null. exact Hin.
Qed.

Lemma getString_null_child_witness :
  getString
    (Node NodeType.Root
       [Some (DefWhitespaceSyntax (token DefSyntaxToken.Whitespace " "));
        None])
  = Fail NullDereference.
Proof.
  apply getString_null_child. right. left. reflexivity.
Defined.

Lemma each_child_app (f : DefSyntaxNode -> Res string) (cs ds : list Ptr) :
  forall value,
    each_child f (cs ++ ds) value
    = (s ← each_child f cs value; each_child f ds s).
Proof.
  induction cs as [|[c|] cs IH]; intros value; cbn [app each_child].
  - reflexivity.
  - destruct (f c) as [s|e]; cbn [mbind Res_bind]; [apply IH|reflexivity].
  - reflexivity.
Qed.

(** The text of a node after [appendChildNode] is its text before, followed
    by the text of the new child; a null child is accepted by
    [appendChildNode] and makes the text a null dereference. *)
Theorem getString_appendChildNode (k : NodeType.t) (cs : list Ptr)
    (node : Ptr) :
  getString (appendChildNode (Node k cs) node)
  = (s ← getString (Node k cs);
     match node with
     | Some n => t ← getString n; Ok (s +:+ t)
     | None => Fail NullDereference
     end).
Proof.
  cbn [appendChildNode getString]. rewrite each_child_app.
  destruct (each_child getString cs EmptyString) as [s|f];
    cbn [mbind Res_bind]; [|reflexivity].
  destruct node as [n|]; cbn [each_child]; [|reflexivity].
  destruct (getString n) as [t|f]; reflexivity.
Qed.

(** The text of a block is the text of its header nodes, in their order,
    followed by the block token: the type and the name nodes are among the
    header nodes and are not written a second time. *)
Theorem block_text_is_header_then_body (tok : DefSyntaxToken)
    (hs : list Ptr) (ty nm : Ptr) :
  leafy hs = true ->
  getString (DefBlockSyntax tok hs ty nm)
  = Ok (values (tokens_of_header hs) +:+ DefSyntaxToken.value tok).
Proof.
  exact (getString_block tok hs ty nm).
Qed.

Lemma block_text_is_header_then_body_witness :
  getString
    (DefBlockSyntax (token DefSyntaxToken.BracedBlock "{}")
       [Some (DefTypeSyntax (token DefSyntaxToken.Token "table"));
        Some (DefWhitespaceSyntax (token DefSyntaxToken.Whitespace " "));
        Some (DefNameSyntax (token DefSyntaxToken.Token "t"));
        None]
       (Some (DefTypeSyntax (token DefSyntaxToken.Token "table")))
       (Some (DefNameSyntax (token DefSyntaxToken.Token "t"))))
  = Ok "table t{}".
Proof.
  apply (block_text_is_header_then_body (token DefSyntaxToken.BracedBlock "{}")).
  reflexivity.
Defined.

(** ** The contents of a block *)

Lemma trim_right_all (chars s : string) :
  all_chars (is_any_of chars) s = true -> trim_right chars s = EmptyString.
Proof.
  unfold all_chars.
  induction s as [|c s IH]; cbn [list_ascii_of_string forallb trim_right];
    [reflexivity|].
  intros H. apply andb_prop in H as [Hc Hs]. rewrite (IH Hs), Hc. reflexivity.
Qed.

Lemma trim_right_app (chars s t : string) :
  all_chars (is_any_of chars) t = true ->
  trim_right chars (s +:+ t) = trim_right chars s.
Proof.
  intros Ht. induction s as [|c s IH].
  - rewrite append_nil_l. cbn [trim_right]. apply trim_right_all. exact Ht.
  - rewrite append_cons. cbn [trim_right]. rewrite IH. reflexivity.
Qed.

Lemma trim_right_plain (chars s : string) (c : ascii) :
  last_char s = Some c -> is_any_of chars c = false ->
  trim_right chars s = s.
Proof.
  intros Hlast Hc. induction s as [|a s IH]; [discriminate|].
  cbn [trim_right]. destruct s as [|b s].
  - cbn [last_char] in Hlast. injection Hlast as ->.
    cbn [trim_right]. rewrite Hc. reflexivity.
  - rewrite (IH Hlast). reflexivity.
Qed.

Lemma trim_left_all (chars s t : string) :
  all_chars (is_any_of chars) s = true ->
  trim_left chars (s +:+ t) = trim_left chars t.
Proof.
  unfold all_chars.
  induction s as [|c s IH]; cbn [list_ascii_of_string forallb].
  - intros _. rewrite append_nil_l. reflexivity.
  - intros H. apply andb_prop in H as [Hc Hs].
    rewrite append_cons. cbn [trim_left]. rewrite Hc. exact (IH Hs).
Qed.

Lemma last_char_app (s t : string) (c : ascii) :
  last_char t = Some c -> last_char (s +:+ t) = Some c.
Proof.
  intros Ht. induction s as [|a s IH].
  - rewrite append_nil_l. exact Ht.
  - rewrite append_cons. cbn [last_char].
    destruct (s +:+ t) as [|b u]; [discriminate IH|exact IH].
Qed.

(** The contents of a block are what its braces enclose, when that text is
    empty or neither starts nor ends with a brace (with [string::trim_copy]
    as modelled above). *)
Theorem getBlockContents_of_plain_content (opening closing content : string)
    (hs : list Ptr) (ty nm : Ptr) :
  all_chars is_brace opening = true ->
  all_chars is_brace closing = true ->
  plain_content content = true ->
  getBlockContents
    (DefBlockSyntax
       (token DefSyntaxToken.BracedBlock (opening +:+ content +:+ closing))
       hs ty nm)
  = Ok content.
Proof.
  intros Hopen Hclose Hplain. cbn [getBlockContents token DefSyntaxToken.value].
  f_equal. unfold trim_copy.
  rewrite <- append_assoc.
  rewrite (trim_right_app "{}" (opening +:+ content) closing Hclose).
  unfold plain_content in Hplain. apply andb_prop in Hplain as [Hfirst Hlast].
  destruct (last_char content) as [c|] eqn:Hc.
  - apply negb_true_iff in Hlast.
    rewrite (trim_right_plain "{}" (opening +:+ content) c
               (last_char_app opening content c Hc) Hlast).
    rewrite (trim_left_all "{}" opening content Hopen).
    destruct content as [|a content]; [reflexivity|].
    cbn [stops_at] in Hfirst. apply negb_true_iff in Hfirst.
    cbn [trim_left]. unfold is_brace in Hfirst. rewrite Hfirst. reflexivity.
  - destruct content as [|a content].
    + rewrite append_nil_r.
      rewrite (trim_right_all "{}" opening Hopen). reflexivity.
    + exfalso. clear -Hc. revert a Hc.
      induction content as [|b content IH]; intros a Hc.
      * discriminate.
      * cbn [last_char] in Hc. exact (IH b Hc).
Qed.

Lemma getBlockContents_of_plain_content_witness :
  getBlockContents
    (DefBlockSyntax
       (token DefSyntaxToken.BracedBlock ("{" +:+ " a {b} c " +:+ "}"))
       [] None None)
  = Ok " a {b} c ".
Proof.
  apply (getBlockContents_of_plain_content "{" "}" " a {b} c ");
    reflexivity.
Defined.

Lemma trailing_header_is_null_witness :
  exists log',
    parseBlock false
      (with_iterator (at_token (token DefSyntaxToken.Token "a") " b") [])
    = Ok (None, with_iterator exhausted_iterator log')
    /\ (_hasValidToken (at_token (token DefSyntaxToken.Token "a") " b") = true ->
        DefSyntaxToken.type
          (_token (at_token (token DefSyntaxToken.Token "a") " b"))
        = DefSyntaxToken.Token ->
        parse_from false make_DefSyntaxTree
          (with_iterator (at_token (token DefSyntaxToken.Token "a") " b") [])
        = (tree' ← appendToRoot make_DefSyntaxTree None;
           Ok (tree', with_iterator exhausted_iterator log'))).
Proof.
  apply (trailing_header_is_null false
           (at_token (token DefSyntaxToken.Token "a") " b")
           exhausted_iterator []
           [token DefSyntaxToken.Token "a";
            token DefSyntaxToken.Whitespace " ";
            token DefSyntaxToken.Token "b"]
           make_DefSyntaxTree).
  - repeat (eapply reads_cons; [reflexivity|reflexivity|]).
    apply reads_nil.
  - reflexivity.
  - repeat constructor; discriminate.
  - reflexivity.
Defined.

(** One call of the tokeniser function has one way to fail: the text under
    the cursor is a single slash, and the cursor is moved past the end. The
    assertion of the [Token] state holds in every call. *)
Theorem tokeniser_call_fault (NDEBUG : bool) (next : string) (f : Fault) :
  DefBlockSyntaxTokeniserFunc NDEBUG next = Fail f ->
  next = String Slash EmptyString /\ f = CursorPastEnd.
Proof.
  intros Hrun.
  destruct (tokeniser_cases NDEBUG next) as [[_ H]|[[Hnext H]|[H|H]]];
    rewrite Hrun in H.
  - discriminate.
  - injection H as ->. split; [exact Hnext|reflexivity].
  - destruct H as (c & rest & consumed & nx & _ & _ & _ & H & _).
    discriminate.
  - destruct H as (tok & nx & H & _). discriminate.
Qed.

Lemma tokeniser_call_fault_witness :
  String Slash EmptyString = String Slash EmptyString
  /\ CursorPastEnd = CursorPastEnd.
Proof.
  apply (tokeniser_call_fault false (String Slash EmptyString) CursorPastEnd).
  reflexivity.
Defined.
